(** * Speedread-Splitter: the chunk-boundary algorithm of [src/main.py]

    A shallow embedding of [clean_text], [count_words] and the main
    splitting loop of [split_book], with the properties the specification
    states about them, and of the pure parts of [save_config] (the update of
    the lines of an existing file) and of the two text extractors (what is
    done with the paragraph texts once the parser has found them).

    A Python [str] is a sequence of Unicode code points: a text is a list of
    code points ([N]).  Offsets into a text are natural numbers; the [-1]
    that [str.find] returns when there is no occurrence is [None].  The
    integers read from [config.ini] ([words_per_minute], [minutes_per_day])
    are not checked by the program and are integers ([Z]). *)

From Stdlib Require Import String Ascii.
From Stdlib Require Import List Arith ZArith NArith QArith Lia Bool.
Import ListNotations.

Local Open Scope nat_scope.

(** ** Texts *)

Definition char := N.
Definition text := list char.

(** An ASCII literal as a text. *)
Definition of_string (s : string) : text :=
  map N_of_ascii (list_ascii_of_string s).

(** [t[a:b]] and [t[a:]] for offsets [0 <= a], [0 <= b]. *)
Definition slice (t : text) (a b : nat) : text := firstn (b - a) (skipn a t).
Definition slice_from (t : text) (a : nat) : text := skipn a t.

(** [t.startswith(sub)]. *)
Fixpoint starts_with (sub t : text) : bool :=
  match sub, t with
  | [], _ => true
  | _ :: _, [] => false
  | a :: sub', b :: t' => N.eqb a b && starts_with sub' t'
  end.

(** [find_at sub t pos]: the scan of [str.find] over [t], the part of the
    text that starts at offset [pos]. *)
Fixpoint find_at (sub t : text) (pos : nat) : option nat :=
  match t with
  | [] => if starts_with sub [] then Some pos else None
  | _ :: rest => if starts_with sub t then Some pos else find_at sub rest (S pos)
  end.

(** [t.find(sub, start)]: the lowest offset [>= start] where [sub] occurs,
    [None] for Python's [-1]. *)
Definition find (sub t : text) (start : nat) : option nat :=
  if length t <? start then None else find_at sub (skipn start t) start.

(** [replace_from old new skip t]: the left-to-right scan of [str.replace]
    for a non-empty [old]; [skip] counts the characters of the occurrence
    just replaced that are still to be dropped. *)
Fixpoint replace_from (old new : text) (skip : nat) (t : text) : text :=
  match t with
  | [] => []
  | c :: rest =>
      match skip with
      | S k => replace_from old new k rest
      | O =>
          if starts_with old t
          then new ++ replace_from old new (length old - 1) rest
          else c :: replace_from old new 0 rest
      end
  end.

(** [t.replace(old, new)]: every non-overlapping occurrence, leftmost first.
    With an empty [old] Python puts [new] around every character. *)
Definition replace (old new t : text) : text :=
  match old with
  | [] => new ++ flat_map (fun c => c :: new) t
  | _ :: _ => replace_from old new 0 t
  end.

(** ** Decimal formatting: [f'{i}'] *)

Fixpoint digits_of_uint (d : Decimal.uint) : text :=
  match d with
  | Decimal.Nil => []
  | Decimal.D0 d => 48%N :: digits_of_uint d
  | Decimal.D1 d => 49%N :: digits_of_uint d
  | Decimal.D2 d => 50%N :: digits_of_uint d
  | Decimal.D3 d => 51%N :: digits_of_uint d
  | Decimal.D4 d => 52%N :: digits_of_uint d
  | Decimal.D5 d => 53%N :: digits_of_uint d
  | Decimal.D6 d => 54%N :: digits_of_uint d
  | Decimal.D7 d => 55%N :: digits_of_uint d
  | Decimal.D8 d => 56%N :: digits_of_uint d
  | Decimal.D9 d => 57%N :: digits_of_uint d
  end.

Definition str_of_nat (i : nat) : text := digits_of_uint (Nat.to_uint i).

(** ** [clean_text] *)

(** [f'[{i}]'] *)
Definition ref_marker (i : nat) : text :=
  of_string "[" ++ str_of_nat i ++ of_string "]".

(** [f'Рис. {i}. '] *)
Definition fig_marker (i : nat) : text :=
  [1056; 1080; 1089]%N ++ of_string ". " ++ str_of_nat i ++ of_string ". ".

(** [f'Таблица {i}. '] *)
Definition tab_marker (i : nat) : text :=
  [1058; 1072; 1073; 1083; 1080; 1094; 1072]%N ++ of_string " "
    ++ str_of_nat i ++ of_string ". ".

(** The body of the [for i in range(1, 1000)] loop. *)
Definition clean_step (t : text) (i : nat) : text :=
  let t := replace (ref_marker i) [] t in
  let t := replace (fig_marker i) [] t in
  replace (tab_marker i) [] t.

Definition clean_text (t : text) : text :=
  fold_left clean_step (seq 1 999) t.

(** ** Character classes *)

(** [str.isalnum()] on ASCII. *)
Definition ascii_alnum (c : char) : bool :=
  ((48 <=? c) && (c <=? 57) || (65 <=? c) && (c <=? 90)
   || (97 <=? c) && (c <=? 122))%N.

(** [str.isspace()], the characters [str.strip()] removes. *)
Definition is_space (c : char) : bool :=
  ((9 <=? c) && (c <=? 13) || (28 <=? c) && (c <=? 32)
   || (c =? 133) || (c =? 160) || (c =? 5760)
   || (8192 <=? c) && (c <=? 8202)
   || (c =? 8232) || (c =? 8233) || (c =? 8239) || (c =? 8287)
   || (c =? 12288))%N.

(** A sample table for the code points above ASCII: the Russian letters
    (U+0410..U+044F, U+0401, U+0451). *)
Definition russian_letters (c : char) : bool :=
  ((1040 <=? c) && (c <=? 1103) || (c =? 1025) || (c =? 1105))%N.

(** [str.lstrip()], [str.rstrip()], [str.strip()]. *)
Fixpoint lstrip (t : text) : text :=
  match t with
  | [] => []
  | c :: rest => if is_space c then lstrip rest else t
  end.

Definition rstrip (t : text) : text := rev (lstrip (rev t)).

Definition strip (t : text) : text := rstrip (lstrip t).

(** The literals of the boundary search: ['\n\n'] and ['. ']. *)
Definition para_break : text := [10; 10]%N.
Definition sentence_break : text := [46; 32]%N.

(** ** Dates *)

(** A [datetime] is kept as the ordinal of its day (0001-01-01 is day 1);
    the time of day never changes in the loop.  [datetime.max] is in year
    9999: adding a day to a date on 9999-12-31 raises [OverflowError]. *)
Definition max_ordinal : Z := 3652059.

Definition add_one_day (d : Z) : option Z :=
  if (d <? max_ordinal)%Z then Some (d + 1)%Z else None.

(** ** The state of the splitting loop *)

(** One chunk: its span in the document, the text written to its file, and
    the two parts of the file name that change from chunk to chunk. *)
Record chunk := {
  chunk_start : nat;
  chunk_end : nat;
  chunk_text : text;
  actual_words : nat;
  chunk_date : Z
}.

Record loop_state := {
  current_pos : nat;
  current_date : Z;
  chunk_count : nat;
  pbar : nat;              (* words reported to the progress bar *)
  written : list chunk     (* the files written so far, oldest first *)
}.

(** How the loop is left. *)
Inductive loop_exit :=
| Cursor_at_end     (* [current_pos < len(full_text)] is false *)
| No_words          (* [words_in_chunk == 0] *)
| Empty_chunk       (* [not chunk_text] *)
| Write_error       (* the [except] branch: [return] *)
| Date_overflow     (* [current_date += timedelta(days=1)] raises *)
| Out_of_fuel.      (* the model's bound on iterations is used up *)

Inductive step_result :=
| Stop (why : loop_exit) (st : loop_state)
| Next (st : loop_state).

Record statistics := {
  stats_days : nat;
  stats_total_time : Q;
  stats_avg_chunk : nat
}.

(** What a run of [split_book] comes to, from the text onward. *)
Inductive outcome :=
| Phrase_not_found
| Finished (why : loop_exit) (st : loop_state) (report : statistics)
| Division_by_zero (why : loop_exit) (st : loop_state)
| Aborted (why : loop_exit) (st : loop_state).

(** [a] is [b] with some characters deleted: same characters, same order. *)
Inductive subsequence : text -> text -> Prop :=
| sub_nil : subsequence [] []
| sub_keep (c : char) (a b : text) :
    subsequence a b -> subsequence (c :: a) (c :: b)
| sub_drop (c : char) (a b : text) :
    subsequence a b -> subsequence a (c :: b).

(** ** [save_config]: the update of an existing [config.ini] *)

(** [f'{n}'] for an integer. *)
Definition str_of_Z (z : Z) : text :=
  if (z <? 0)%Z then of_string "-" ++ str_of_nat (Z.to_nat (- z))
  else str_of_nat (Z.to_nat z).

Definition key_minutes : text := of_string "minutes_per_day".
Definition key_wpm : text := of_string "words_per_minute".
Definition key_language : text := of_string "language".

(** The lines that the update writes: [f'minutes_per_day = {minutes}\n'],
    [f'words_per_minute = {wpm}\n'], [f'language = {language}\n']. *)
Definition minutes_line (minutes : Z) : text :=
  key_minutes ++ of_string " = " ++ str_of_Z minutes ++ [10%N].
Definition wpm_line (wpm : Z) : text :=
  key_wpm ++ of_string " = " ++ str_of_Z wpm ++ [10%N].
Definition language_line (language : text) : text :=
  key_language ++ of_string " = " ++ language ++ [10%N].

(** The body of [for i, line in enumerate(lines)]: what [lines[i]] is
    after it. *)
Definition update_line (minutes wpm : Z) (language : text) (line : text)
  : text :=
  if starts_with key_minutes (strip line) then minutes_line minutes
  else if starts_with key_wpm (strip line) then wpm_line wpm
  else if starts_with key_language (strip line) then language_line language
  else line.

(** The lines written back to the file. *)
Definition update_config_lines (minutes wpm : Z) (language : text)
    (lines : list text) : list text :=
  map (update_line minutes wpm language) lines.

(** ** Text extraction: what is done with the paragraphs found *)

(** ['\n\n'.join(text_parts)] and the general [sep.join(parts)]. *)
Fixpoint join (sep : text) (parts : list text) : text :=
  match parts with
  | [] => []
  | p :: rest =>
      match rest with
      | [] => p
      | _ :: _ => p ++ sep ++ join sep rest
      end
  end.

Definition nonempty (t : text) : bool :=
  match t with [] => false | _ :: _ => true end.

(** The loop [text = ''.join(p.itertext()).strip(); if text: append]: from
    the texts of the elements found to [text_parts]. *)
Definition stripped_parts (raws : list text) : list text :=
  filter nonempty (map strip raws).

(** [extract_text_from_fb2], from the texts of the [fb:p] elements and of
    the [fb:v] elements, in document order. *)
Definition extract_text_from_fb2 (paragraphs verses : list text) : text :=
  join para_break (stripped_parts paragraphs ++ stripped_parts verses).

(** [extract_text_from_epub], from the [get_text(strip=True)] of the [p]
    elements of all documents, in order. *)
Definition extract_text_from_epub (texts : list text) : text :=
  join para_break (filter nonempty texts).

(** A file system that accepts the first chunk of a text only. *)
Definition writes_first_only (c : chunk) : bool := chunk_start c =? 0.

(** ** Vocabulary of the properties *)

(** [t[p:p+len(sub)] == sub]: [sub] occurs in [t] at offset [p]. *)
Definition occurs_at (sub t : text) (p : nat) : Prop :=
  slice t p (p + length sub) = sub.

(** [sub in t] *)
Definition contains (sub t : text) : bool :=
  match find sub t 0 with Some _ => true | None => false end.

(** None of the literals that [clean_text] removes is in [t]. *)
Definition marker_free (t : text) : bool :=
  forallb (fun i => negb (contains (ref_marker i) t)
                    && negb (contains (fig_marker i) t)
                    && negb (contains (tab_marker i) t)) (seq 1 999).

(** A search that is bounded to a window from the start: the lowest offset
    [p] with [pos <= p < pos + width] where [sub] occurs in the text, of
    which [t] is the part from [pos] on. *)
Fixpoint scan_window (sub t : text) (pos width : nat) : option nat :=
  match width with
  | O => None
  | S w =>
      if starts_with sub t then Some pos
      else match t with
           | [] => None
           | _ :: rest => scan_window sub rest (S pos) w
           end
  end.

Definition find_bounded (sub t : text) (start width : nat) : option nat :=
  if length t <? start then None
  else scan_window sub (skipn start t) start width.

(** Another bounded search, over the slice: [t[start:start+width].find(sub)]
    as an offset into [t].  An occurrence must end inside the window. *)
Definition find_sliced (sub t : text) (start width : nat) : option nat :=
  option_map (Nat.add start) (find sub (slice t start (start + width)) 0).

(** A word, 99 hyphens, a paragraph break, a word: the break starts at the
    last offset of the window after the first word. *)
Definition edge_text : text :=
  of_string "w" ++ repeat 45%N 99 ++ para_break ++ of_string "z".

(** The boundary search of the specification with both searches bounded to
    the 100-character window. *)
Definition snap_bounded (full_text : text) (last_match_end : nat) : nat :=
  match find_bounded para_break full_text last_match_end 100 with
  | Some p => p + 2
  | None =>
      match find_bounded sentence_break full_text last_match_end 100 with
      | Some d => d + 2
      | None => last_match_end
      end
  end.

(** No occurrence of [sub] starts in the 100 characters from [lme] on. *)
Definition window_clear (sub t : text) (lme : nat) : bool :=
  forallb (fun j => negb (starts_with sub (skipn j t))) (seq lme 100).

(** The state a step result carries. *)
Definition state_of (r : step_result) : loop_state :=
  match r with Stop _ st => st | Next st => st end.

(** The untrimmed span of a chunk. *)
Definition span_text (full_text : text) (c : chunk) : text :=
  slice full_text (chunk_start c) (chunk_end c).

(** The chunks [cs] tile the offsets from [from] to [to]: each one is not
    empty and starts where the one before it ended. *)
Fixpoint contiguous (from : nat) (cs : list chunk) (to : nat) : Prop :=
  match cs with
  | [] => from = to
  | c :: rest =>
      chunk_start c = from /\ from < chunk_end c
      /\ contiguous (chunk_end c) rest to
  end.

(** [d0], [d0 + 1], ..., [n] days. *)
Definition consecutive_days (d0 : Z) (n : nat) : list Z :=
  map (fun i => (d0 + Z.of_nat i)%Z) (seq 0 n).

(** What the coverage claim says of a state. *)
Definition covers (t : text) (s0 : nat) (st : loop_state) : Prop :=
  contiguous s0 (written st) (current_pos st)
  /\ concat (map (span_text t) (written st)) = slice t s0 (current_pos st)
  /\ Forall (fun c => chunk_text c = strip (span_text t c)) (written st).

(** The dates of the chunks written, and the date of the next one. *)
Definition dated (d0 : Z) (st : loop_state) : Prop :=
  map chunk_date (written st) = consecutive_days d0 (length (written st)).

Definition dated_next (d0 : Z) (st : loop_state) : Prop :=
  dated d0 st /\ current_date st = (d0 + Z.of_nat (length (written st)))%Z.

(** The text of the end-to-end example of the specification. *)
Definition example_text : text :=
  of_string "Alpha beta gamma. Delta epsilon." ++ [10; 10]%N
    ++ of_string "Zeta eta theta iota.".

(** A file system on which every write succeeds. *)
Definition always_writes (_ : chunk) : bool := true.

(** The words in the files written: the sum of their [actual_words]. *)
Definition words_written (cs : list chunk) : nat :=
  list_sum (map actual_words cs).

Section Splitter.

(** [str.isalnum()] on the code points above ASCII (Python's Unicode
    tables), and whether the file system accepts the write of a chunk. *)
Variable unicode_alnum : char -> bool.
Variable write_ok : chunk -> bool.

(** [\w] of a [str] pattern: alphanumeric or underscore. *)
Definition is_word (c : char) : bool :=
  if (c <? 128)%N then ascii_alnum c || (c =? 95)%N else unicode_alnum c.

(** [re.finditer(r'\b\w+\b', t)]: the spans [(start, end)] of the matches,
    in order.  [\w+] is greedy and a run of word characters ends at a word
    boundary, so the matches are the maximal runs of word characters.
    [pos] is the offset of [t] in the string searched and [cur] the start of
    the run being read. *)
Fixpoint finditer_words (pos : nat) (cur : option nat) (t : text)
  : list (nat * nat) :=
  match t with
  | [] => match cur with Some s => [(s, pos)] | None => [] end
  | c :: rest =>
      if is_word c
      then finditer_words (S pos)
             (Some (match cur with Some s => s | None => pos end)) rest
      else match cur with
           | Some s => (s, pos) :: finditer_words (S pos) None rest
           | None => finditer_words (S pos) None rest
           end
  end.

Definition word_matches (t : text) : list (nat * nat) :=
  finditer_words 0 None t.

Definition count_words (t : text) : nat := length (word_matches t).

(** The [for match in re.finditer(...)] loop with its [break]: returns
    [(words_in_chunk, last_match_end)]. *)
Fixpoint count_loop (matches : list (nat * nat)) (current_pos : nat)
    (words_per_chunk : Z) (words_in_chunk last_match_end : nat) : nat * nat :=
  match matches with
  | [] => (words_in_chunk, last_match_end)
  | m :: rest =>
      let words_in_chunk := S words_in_chunk in
      let last_match_end := current_pos + snd m in
      if (Z.of_nat words_in_chunk >=? words_per_chunk)%Z
      then (words_in_chunk, last_match_end)
      else count_loop rest current_pos words_per_chunk
             words_in_chunk last_match_end
  end.

Definition raw_cut (full_text : text) (current_pos : nat) (words_per_chunk : Z)
  : nat * nat :=
  count_loop (word_matches (slice_from full_text current_pos))
    current_pos words_per_chunk 0 current_pos.

(** [r != -1 and r < limit] *)
Definition found_before (r : option nat) (limit : nat) : option nat :=
  match r with
  | Some p => if p <? limit then Some p else None
  | None => None
  end.

(** The boundary search: [chunk_end] from [last_match_end]. *)
Definition snap (full_text : text) (last_match_end : nat) : nat :=
  let next_para := find para_break full_text last_match_end in
  let next_dot := find sentence_break full_text last_match_end in
  match found_before next_para (last_match_end + 100) with
  | Some p => p + 2
  | None =>
      match found_before next_dot (last_match_end + 100) with
      | Some d => d + 2
      | None => last_match_end
      end
  end.

(** The segmenter: the end offset of the chunk that starts at
    [current_pos], [None] when no word is left there. *)
Definition segment (full_text : text) (current_pos : nat) (words_per_chunk : Z)
  : option nat :=
  let '(words_in_chunk, last_match_end) :=
    raw_cut full_text current_pos words_per_chunk in
  if words_in_chunk =? 0 then None else Some (snap full_text last_match_end).

(** The character of [t] at offset [i] is a word character. *)
Definition word_at (t : text) (i : nat) : bool :=
  match nth_error t i with Some c => is_word c | None => false end.

(** [(a, b)] is the span of a match of [\b\w+\b] in [t] that cannot be
    extended: word characters from [a] to [b], none just before [a] and
    none at [b]. *)
Definition is_token (t : text) (m : nat * nat) : Prop :=
  fst m < snd m <= length t
  /\ (forall i, fst m <= i < snd m -> word_at t i = true)
  /\ (fst m = 0 \/ word_at t (fst m - 1) = false)
  /\ word_at t (snd m) = false.

(** The segmenter with the bounded boundary search. *)
Definition segment_bounded (full_text : text) (current_pos : nat)
    (words_per_chunk : Z) : option nat :=
  let '(words_in_chunk, last_match_end) :=
    raw_cut full_text current_pos words_per_chunk in
  if words_in_chunk =? 0 then None
  else Some (snap_bounded full_text last_match_end).

(** The chunk that a pass builds once [chunk_end] is known: its text
    ([full_text[chunk_start:chunk_end].strip()]), the recount of its words
    and the date that goes into the file name. *)
Definition next_chunk (full_text : text) (st : loop_state) (chunk_end : nat)
  : chunk :=
  let chunk_text := strip (slice full_text (current_pos st) chunk_end) in
  {| chunk_start := current_pos st;
     chunk_end := chunk_end;
     chunk_text := chunk_text;
     actual_words := count_words chunk_text;
     chunk_date := current_date st |}.

(** One pass through the body of [while current_pos < len(full_text)]. *)
Definition iteration (full_text : text) (words_per_chunk : Z) (st : loop_state)
  : step_result :=
  if negb (current_pos st <? length full_text) then Stop Cursor_at_end st
  else
    match segment full_text (current_pos st) words_per_chunk with
    | None => Stop No_words st
    | Some chunk_end =>
        let c := next_chunk full_text st chunk_end in
        match chunk_text c with
        | [] => Stop Empty_chunk st
        | _ :: _ =>
            if negb (write_ok c) then Stop Write_error st
            else
              match add_one_day (current_date st) with
              | None =>
                  Stop Date_overflow
                    {| current_pos := chunk_end;
                       current_date := current_date st;
                       chunk_count := chunk_count st;
                       pbar := pbar st;
                       written := written st ++ [c] |}
              | Some tomorrow =>
                  Next {| current_pos := chunk_end;
                          current_date := tomorrow;
                          chunk_count := S (chunk_count st);
                          pbar := pbar st + actual_words c;
                          written := written st ++ [c] |}
              end
        end
    end.

(** The loop, for at most [fuel] passes. *)
Fixpoint split_loop (fuel : nat) (full_text : text) (words_per_chunk : Z)
    (st : loop_state) : loop_exit * loop_state :=
  match fuel with
  | O => (Out_of_fuel, st)
  | S fuel' =>
      match iteration full_text words_per_chunk st with
      | Stop why st' => (why, st')
      | Next st' => split_loop fuel' full_text words_per_chunk st'
      end
  end.

(** The statistics after the loop; [None] is the [ZeroDivisionError] of
    [total_words / words_per_minute]. *)
Definition compute_statistics (total_words : nat) (words_per_minute : Z)
    (chunk_count : nat) : option statistics :=
  if (words_per_minute =? 0)%Z then None
  else Some {| stats_days := chunk_count;
               stats_total_time :=
                 (inject_Z (Z.of_nat total_words) / inject_Z words_per_minute
                  / inject_Z 60)%Q;
               stats_avg_chunk :=
                 if 0 <? chunk_count then total_words / chunk_count else 0 |}.

Definition initial_state (pos : nat) (date : Z) : loop_state :=
  {| current_pos := pos; current_date := date; chunk_count := 0;
     pbar := 0; written := [] |}.

(** [split_book] from the extracted text onward.  [clean] is the answer to
    the cleaning prompt, [start_text] the starting phrase (empty: from the
    beginning), [start_date] the first day. *)
Definition split_book (raw_text : text) (clean : bool)
    (words_per_minute minutes_per_day : Z) (start_text : text)
    (start_date : Z) : outcome :=
  let full_text := if clean then clean_text raw_text else raw_text in
  let total_words := count_words full_text in
  let words_per_chunk := (words_per_minute * minutes_per_day)%Z in
  match (match start_text with
         | [] => Some 0
         | _ :: _ => find start_text full_text 0
         end) with
  | None => Phrase_not_found
  | Some pos =>
      let '(why, st) :=
        split_loop (S (length full_text)) full_text words_per_chunk
          (initial_state pos start_date) in
      match why with
      | Write_error | Date_overflow | Out_of_fuel => Aborted why st
      | Cursor_at_end | No_words | Empty_chunk =>
          match compute_statistics total_words words_per_minute
                  (chunk_count st) with
          | Some report => Finished why st report
          | None => Division_by_zero why st
          end
      end
  end.

(** In Python's tables no word character is white space. *)
Definition words_not_spaces : Prop :=
  forall c, is_word c = true -> is_space c = false.

(** The counters agree with the files written. *)
Definition counted (st : loop_state) : Prop :=
  chunk_count st = length (written st)
  /\ pbar st = words_written (written st).

(** The words written and the words after the cursor are the words from
    [s0] on. *)
Definition conserved (t : text) (s0 : nat) (st : loop_state) : Prop :=
  words_written (written st) + count_words (slice_from t (current_pos st))
  = count_words (slice_from t s0).


(** ** Examples *)

Example str_of_nat_42 : str_of_nat 42 = of_string "42".
Proof. reflexivity. Qed.

Example clean_text_ex :
  clean_text (of_string "a[12]b [7]c") = of_string "ab c".
Proof. vm_compute. reflexivity. Qed.

Example strip_ex :
  strip (of_string "  a b " ++ [10; 10]%N) = of_string "a b".
Proof. reflexivity. Qed.

Example find_ex :
  find sentence_break (of_string "a. b. c") 2 = Some 4
  /\ find para_break (of_string "a. b. c") 0 = None.
Proof. split; reflexivity. Qed.

(** ** Slices and literal search *)

Lemma slice_app (t : text) (a b c : nat) :
  a <= b -> b <= c -> slice t a b ++ slice t b c = slice t a c.
Proof.
  intros Hab Hbc. unfold slice.
  replace (skipn b t) with (skipn (b - a) (skipn a t))
    by (rewrite skipn_skipn; f_equal; lia).
  replace (c - a) with ((b - a) + (c - b)) by lia.
  generalize (skipn a t) as u. generalize (b - a) as n.
  induction n as [|n IH]; intros [|x u]; simpl;
    try rewrite firstn_nil; try reflexivity.
  now rewrite IH.
Qed.

Lemma slice_same (t : text) (a : nat) : slice t a a = [].
Proof. unfold slice. now rewrite Nat.sub_diag. Qed.

Lemma starts_with_spec (sub t : text) :
  starts_with sub t = true <-> firstn (length sub) t = sub.
Proof.
  revert t. induction sub as [|a sub IH]; intros [|b t]; simpl;
    try (split; (reflexivity || discriminate)).
  rewrite andb_true_iff, N.eqb_eq, IH. split.
  - intros [-> ->]. reflexivity.
  - intros H. injection H as H1 H2. split; [now symmetry|exact H2].
Qed.

Lemma occurs_at_starts_with (sub t : text) (p : nat) :
  occurs_at sub t p <-> starts_with sub (skipn p t) = true.
Proof.
  unfold occurs_at, slice. rewrite starts_with_spec.
  replace (p + length sub - p) with (length sub) by lia. reflexivity.
Qed.

Lemma occurs_at_bound (sub t : text) (p : nat) :
  occurs_at sub t p -> sub <> [] -> p + length sub <= length t.
Proof.
  unfold occurs_at, slice. intros H Hne.
  replace (p + length sub - p) with (length sub) in H by lia.
  assert (L : length (firstn (length sub) (skipn p t)) = length sub)
    by now rewrite H.
  rewrite length_firstn, length_skipn in L.
  assert (0 < length sub) by (destruct sub; [congruence|simpl; lia]).
  lia.
Qed.

(** What [find_at] returns is the first occurrence. *)
Lemma find_at_Some (sub t : text) (pos q : nat) :
  find_at sub t pos = Some q ->
  pos <= q /\ q <= pos + length t
  /\ starts_with sub (skipn (q - pos) t) = true
  /\ forall j, j < q - pos -> starts_with sub (skipn j t) = false.
Proof.
  revert pos. induction t as [|c t IH]; intros pos; simpl.
  - destruct (starts_with sub []) eqn:E; [|discriminate].
    intros [= <-]. rewrite Nat.sub_diag. simpl. repeat split; try lia; auto.
  - destruct (starts_with sub (c :: t)) eqn:E.
    + intros [= <-]. rewrite Nat.sub_diag. simpl. repeat split; try lia; auto.
    + intros H. destruct (IH _ H) as (H1 & H2 & H3 & H4).
      replace (q - pos) with (S (q - S pos)) by lia. simpl.
      repeat split; try lia; auto.
      intros [|j] Hj; simpl; [exact E|]. apply H4. lia.
Qed.

Lemma find_at_None (sub t : text) (pos : nat) :
  find_at sub t pos = None ->
  forall j, j <= length t -> starts_with sub (skipn j t) = false.
Proof.
  revert pos. induction t as [|c t IH]; intros pos; simpl.
  - destruct (starts_with sub []) eqn:E; [discriminate|].
    intros _ j Hj. now rewrite skipn_nil.
  - destruct (starts_with sub (c :: t)) eqn:E; [discriminate|].
    intros H [|j] Hj; simpl; [exact E|]. apply (IH _ H). lia.
Qed.

Lemma starts_with_nil_false (sub : text) :
  sub <> [] -> starts_with sub [] = false.
Proof. destruct sub; [congruence|reflexivity]. Qed.

Lemma find_Some (sub t : text) (start q : nat) :
  find sub t start = Some q ->
  start <= q /\ q <= length t /\ occurs_at sub t q
  /\ forall j, start <= j < q -> ~ occurs_at sub t j.
Proof.
  unfold find. destruct (length t <? start) eqn:L; [discriminate|].
  apply Nat.ltb_ge in L. intros H.
  destruct (find_at_Some _ _ _ _ H) as (H1 & H2 & H3 & H4).
  rewrite length_skipn in H2. rewrite skipn_skipn in H3.
  replace (q - start + start) with q in H3 by lia.
  repeat split; try lia.
  - now apply occurs_at_starts_with.
  - intros j Hj Hocc. apply occurs_at_starts_with in Hocc.
    specialize (H4 (j - start) ltac:(lia)). rewrite skipn_skipn in H4.
    replace (j - start + start) with j in H4 by lia. congruence.
Qed.

Lemma find_None (sub t : text) (start : nat) :
  sub <> [] -> find sub t start = None ->
  forall j, start <= j -> ~ occurs_at sub t j.
Proof.
  unfold find. intros Hne H j Hj Hocc.
  apply occurs_at_starts_with in Hocc.
  destruct (Nat.le_gt_cases j (length t)) as [Hle|Hgt].
  - destruct (length t <? start) eqn:L.
    + apply Nat.ltb_lt in L. lia.
    + apply Nat.ltb_ge in L.
      pose proof (find_at_None _ _ _ H (j - start)) as F.
      rewrite length_skipn, skipn_skipn in F.
      replace (j - start + start) with j in F by lia.
      rewrite F in Hocc by lia. discriminate.
  - rewrite skipn_all2 in Hocc by lia.
    rewrite starts_with_nil_false in Hocc by assumption. discriminate.
Qed.

(** An occurrence at or after [start] makes [find] succeed, at or before
    that occurrence. *)
Lemma find_finds (sub t : text) (start p : nat) :
  sub <> [] -> start <= p -> occurs_at sub t p ->
  exists q, find sub t start = Some q /\ start <= q <= p.
Proof.
  intros Hne Hp Hocc. destruct (find sub t start) as [q|] eqn:F.
  - exists q. split; [reflexivity|].
    destruct (find_Some _ _ _ _ F) as (H1 & _ & _ & H4).
    split; [assumption|]. destruct (Nat.le_gt_cases q p); [assumption|].
    exfalso. apply (H4 p); [lia|assumption].
  - exfalso. apply (find_None _ _ _ Hne F p Hp Hocc).
Qed.

Lemma para_break_nonempty : para_break <> [].
Proof. discriminate. Qed.

Lemma sentence_break_nonempty : sentence_break <> [].
Proof. discriminate. Qed.

(** ** The word scan *)

Lemma finditer_words_spans (t : text) (pos : nat) (cur : option nat) :
  (forall s, cur = Some s -> s < pos) ->
  Forall (fun m => fst m < snd m /\ snd m <= pos + length t)
    (finditer_words pos cur t).
Proof.
  revert pos cur. induction t as [|c t IH]; intros pos cur Hcur; simpl.
  - destruct cur as [s|]; constructor; simpl; auto.
    specialize (Hcur s eq_refl). lia.
  - assert (Step : forall cur', (forall s, cur' = Some s -> s < S pos) ->
        Forall (fun m => fst m < snd m /\ snd m <= pos + S (length t))
          (finditer_words (S pos) cur' t)).
    { intros cur' H. eapply Forall_impl; [|apply (IH (S pos) cur' H)].
      simpl. intros m. lia. }
    destruct (is_word c).
    + apply Step. intros s [= <-]. destruct cur as [s'|]; [|lia].
      specialize (Hcur s' eq_refl). lia.
    + destruct cur as [s|].
      * constructor; [simpl; specialize (Hcur s eq_refl); lia|].
        apply Step. discriminate.
      * apply Step. discriminate.
Qed.

Lemma word_matches_spans (t : text) :
  Forall (fun m => 0 < snd m <= length t) (word_matches t).
Proof.
  eapply Forall_impl; [|apply (finditer_words_spans t 0 None); discriminate].
  simpl. intros m. lia.
Qed.

Lemma count_loop_spec (bound : nat) (matches : list (nat * nat))
    (pos : nat) (k : Z) (w0 l0 w l : nat) :
  Forall (fun m => 0 < snd m <= bound) matches ->
  count_loop matches pos k w0 l0 = (w, l) ->
  (matches = [] /\ w = w0 /\ l = l0)
  \/ (matches <> [] /\ w0 < w /\ pos < l <= pos + bound).
Proof.
  revert w0 l0. induction matches as [|m rest IH]; intros w0 l0 HF; simpl.
  - intros [= <- <-]. left. auto.
  - inversion HF as [|? ? Hm Hrest]; subst.
    match goal with |- context [(?a >=? ?b)%Z] => destruct (a >=? b)%Z end;
      intros H; right; (split; [discriminate|]).
    + injection H as <- <-. lia.
    + destruct (IH _ _ Hrest H) as [(_ & -> & ->)|(_ & ? & ?)]; lia.
Qed.

(** The raw cut: either no word is left at [s], or at least one word was
    counted and the cut is after [s], inside the text. *)
Lemma raw_cut_spec (t : text) (s : nat) (k : Z) (w l : nat) :
  raw_cut t s k = (w, l) ->
  (w = 0 /\ l = s /\ count_words (slice_from t s) = 0)
  \/ (0 < w /\ s < l <= length t /\ count_words (slice_from t s) <> 0).
Proof.
  unfold raw_cut, count_words. intros H.
  pose proof (word_matches_spans (slice_from t s)) as HF.
  destruct (count_loop_spec _ _ _ _ _ _ _ _ HF H)
    as [(E & -> & ->)|(NE & Hw & Hl)].
  - left. rewrite E. auto.
  - right. unfold slice_from in *. rewrite length_skipn in Hl.
    repeat split; try lia.
    destruct (word_matches (skipn s t)); [congruence|discriminate].
Qed.

Lemma skipn_cons_inv (l : text) (pos : nat) (c : char) (rest : text) :
  skipn pos l = c :: rest ->
  nth_error l pos = Some c /\ skipn (S pos) l = rest /\ pos < length l.
Proof.
  revert l. induction pos as [|pos IH]; intros [|x l]; simpl;
    try discriminate.
  - intros [= -> ->]. repeat split; lia.
  - intros H. destruct (IH _ H) as (H1 & H2 & H3). repeat split; auto. lia.
Qed.

(** The scan returns matches of [\b\w+\b]. *)
Lemma finditer_words_tokens (full t : text) (pos : nat) (cur : option nat) :
  skipn pos full = t -> pos <= length full ->
  match cur with
  | Some s => s < pos /\ (forall i, s <= i < pos -> word_at full i = true)
              /\ (s = 0 \/ word_at full (s - 1) = false)
  | None => pos = 0 \/ word_at full (pos - 1) = false
  end ->
  Forall (is_token full) (finditer_words pos cur t).
Proof.
  revert pos cur. induction t as [|c t IH]; intros pos cur Hs Hle Hcur; simpl.
  - assert (pos = length full).
    { assert (L : length (skipn pos full) = 0) by now rewrite Hs.
      rewrite length_skipn in L. lia. }
    subst pos. destruct cur as [s|]; constructor; [|constructor].
    destruct Hcur as (H1 & H2 & H3). unfold is_token. simpl.
    repeat split; try lia; auto.
    unfold word_at. now rewrite (proj2 (nth_error_None full _) (le_n _)).
  - destruct (skipn_cons_inv _ _ _ _ Hs) as (Hn & Hr & Hl).
    assert (Hw : word_at full pos = is_word c)
      by (unfold word_at; now rewrite Hn).
    destruct (is_word c) eqn:W.
    + apply IH; [assumption|lia|]. destruct cur as [s|].
      * destruct Hcur as (H1 & H2 & H3). repeat split; auto.
        intros i Hi. destruct (Nat.eq_dec i pos) as [->|]; [assumption|].
        apply H2. lia.
      * repeat split; auto.
        intros i Hi. replace i with pos by lia. assumption.
    + assert (Hnone : S pos = 0 \/ word_at full (S pos - 1) = false)
        by (right; now replace (S pos - 1) with pos by lia).
      destruct cur as [s|].
      * constructor; [|apply IH; [assumption|lia|assumption]].
        destruct Hcur as (H1 & H2 & H3). unfold is_token. simpl.
        repeat split; try lia; auto.
      * apply IH; [assumption|lia|assumption].
Qed.

Lemma word_matches_tokens (t : text) : Forall (is_token t) (word_matches t).
Proof. apply finditer_words_tokens; [reflexivity|lia|now left]. Qed.

(** ** The boundary search *)

Lemma found_before_Some (r : option nat) (limit p : nat) :
  found_before r limit = Some p <-> r = Some p /\ p < limit.
Proof.
  unfold found_before. destruct r as [q|].
  - destruct (q <? limit) eqn:E.
    + apply Nat.ltb_lt in E. split.
      * intros [= <-]. auto.
      * intros [[= <-] _]. reflexivity.
    + apply Nat.ltb_ge in E. split; [discriminate|].
      intros [[= <-] ?]. lia.
  - split; [discriminate|]. intros [? _]. discriminate.
Qed.

Lemma found_before_None (r : option nat) (limit : nat) :
  found_before r limit = None <->
  (forall p, r = Some p -> limit <= p).
Proof.
  unfold found_before. destruct r as [q|].
  - destruct (q <? limit) eqn:E.
    + apply Nat.ltb_lt in E. split; [discriminate|].
      intros H. specialize (H q eq_refl). lia.
    + apply Nat.ltb_ge in E. split; [|reflexivity].
      intros _ p [= <-]. exact E.
  - split; [discriminate|reflexivity].
Qed.

(** A break inside the window is what the accepted search result is: the
    first break at or after the cut. *)
Lemma window_hit (sub t : text) (lme p : nat) :
  sub <> [] -> lme <= p < lme + 100 -> occurs_at sub t p ->
  exists q, found_before (find sub t lme) (lme + 100) = Some q
            /\ lme <= q <= p /\ occurs_at sub t q
            /\ forall j, lme <= j < q -> ~ occurs_at sub t j.
Proof.
  intros Hne Hp Hocc.
  destruct (find_finds sub t lme p Hne (proj1 Hp) Hocc) as (q & F & Hq).
  exists q. destruct (find_Some _ _ _ _ F) as (_ & _ & H3 & H4).
  repeat split; try lia; try assumption.
  apply found_before_Some. split; [assumption|lia].
Qed.

Lemma window_miss (sub t : text) (lme : nat) :
  sub <> [] ->
  (forall j, lme <= j < lme + 100 -> ~ occurs_at sub t j) ->
  found_before (find sub t lme) (lme + 100) = None.
Proof.
  intros Hne Hno. apply found_before_None. intros p F.
  destruct (find_Some _ _ _ _ F) as (H1 & _ & H3 & _).
  destruct (Nat.le_gt_cases (lme + 100) p); [assumption|].
  exfalso. apply (Hno p); [lia|assumption].
Qed.

Lemma snap_bounds (t : text) (lme : nat) :
  lme <= snap t lme /\ (lme <= length t -> snap t lme <= length t).
Proof.
  unfold snap.
  destruct (found_before (find para_break t lme) (lme + 100)) as [p|] eqn:P.
  - apply found_before_Some in P. destruct P as (F & _).
    destruct (find_Some _ _ _ _ F) as (H1 & _ & H3 & _).
    pose proof (occurs_at_bound _ _ _ H3 para_break_nonempty) as B.
    simpl in B. lia.
  - destruct (found_before (find sentence_break t lme) (lme + 100))
      as [d|] eqn:D; [|lia].
    apply found_before_Some in D. destruct D as (F & _).
    destruct (find_Some _ _ _ _ F) as (H1 & _ & H3 & _).
    pose proof (occurs_at_bound _ _ _ H3 sentence_break_nonempty) as B.
    simpl in B. lia.
Qed.

(** The accepted result of the unbounded search is the result of the search
    bounded to the window. *)
Lemma found_before_find_at (sub t : text) (pos w : nat) :
  found_before (find_at sub t pos) (pos + w) = scan_window sub t pos w.
Proof.
  revert pos w. induction t as [|c t IH]; intros pos w.
  - simpl. destruct w as [|w]; simpl.
    + destruct (starts_with sub []); simpl; [|reflexivity].
      replace (pos <? pos + 0) with false; [reflexivity|].
      symmetry. apply Nat.ltb_ge. lia.
    + destruct (starts_with sub []); simpl; [|reflexivity].
      replace (pos <? pos + S w) with true; [reflexivity|].
      symmetry. apply Nat.ltb_lt. lia.
  - destruct w as [|w].
    + simpl scan_window. apply found_before_None. intros p F.
      destruct (find_at_Some _ _ _ _ F). lia.
    + simpl. destruct (starts_with sub (c :: t)); simpl.
      * replace (pos <? pos + S w) with true; [reflexivity|].
        symmetry. apply Nat.ltb_lt. lia.
      * rewrite <- IH. f_equal. lia.
Qed.

Lemma find_bounded_spec (sub t : text) (start w : nat) :
  find_bounded sub t start w = found_before (find sub t start) (start + w).
Proof.
  unfold find_bounded, find. destruct (length t <? start); [reflexivity|].
  symmetry. apply found_before_find_at.
Qed.

Lemma snap_bounded_eq (t : text) (lme : nat) : snap_bounded t lme = snap t lme.
Proof. unfold snap_bounded, snap. now rewrite !find_bounded_spec. Qed.

(** ** The segmenter *)

Lemma segment_Some (t : text) (s : nat) (k : Z) (e : nat) :
  segment t s k = Some e <->
  exists w l, raw_cut t s k = (w, l) /\ 0 < w /\ e = snap t l.
Proof.
  unfold segment. destruct (raw_cut t s k) as [w l]. split.
  - destruct (w =? 0) eqn:E; [discriminate|]. apply Nat.eqb_neq in E.
    intros [= <-]. exists w, l. repeat split; auto. lia.
  - intros (w' & l' & [= <- <-] & Hw & ->).
    destruct (w =? 0) eqn:E; [apply Nat.eqb_eq in E; lia|reflexivity].
Qed.

Lemma segment_None (t : text) (s : nat) (k : Z) :
  segment t s k = None <-> count_words (slice_from t s) = 0.
Proof.
  unfold segment. destruct (raw_cut t s k) as [w l] eqn:R.
  destruct (raw_cut_spec _ _ _ _ _ R) as [(-> & _ & C)|(Hw & _ & C)].
  - simpl. split; auto.
  - destruct (w =? 0) eqn:E; [apply Nat.eqb_eq in E; lia|].
    split; [discriminate|]. intros; contradiction.
Qed.

(** A chunk end is after the start of the chunk and inside the text. *)
Lemma segment_advances (t : text) (s : nat) (k : Z) (e : nat) :
  segment t s k = Some e -> s < e <= length t.
Proof.
  intros H. apply segment_Some in H. destruct H as (w & l & R & Hw & ->).
  destruct (raw_cut_spec _ _ _ _ _ R) as [(-> & _)|(_ & Hl & _)]; [lia|].
  pose proof (snap_bounds t l). lia.
Qed.

Lemma window_clear_spec (sub t : text) (lme : nat) :
  window_clear sub t lme = true ->
  forall j, lme <= j < lme + 100 -> ~ occurs_at sub t j.
Proof.
  unfold window_clear. rewrite forallb_forall. intros H j Hj Hocc.
  apply occurs_at_starts_with in Hocc.
  specialize (H j). rewrite in_seq, Hocc in H. specialize (H Hj).
  discriminate.
Qed.

(** C3 (boundary precedence).  Whenever a paragraph break and a sentence
    break both occur in the 100 characters after the raw cut, the chunk ends
    two characters after the first paragraph break at or after the cut,
    wherever the sentence break lies. *)
Theorem boundary_precedence (t : text) (s : nat) (k : Z) (w raw p q : nat) :
  raw_cut t s k = (w, raw) -> 0 < w ->
  raw <= p < raw + 100 -> occurs_at para_break t p ->
  raw <= q < raw + 100 -> occurs_at sentence_break t q ->
  exists p0,
    raw <= p0 <= p /\ occurs_at para_break t p0
    /\ (forall j, raw <= j < p0 -> ~ occurs_at para_break t j)
    /\ segment t s k = Some (p0 + 2).
Proof.
  intros R Hw Hp Hpo _ _.
  destruct (window_hit _ _ _ _ para_break_nonempty Hp Hpo)
    as (p0 & F & Hp0 & Ho & Hfirst).
  exists p0. repeat split; try lia; try assumption.
  apply segment_Some. exists w, raw. repeat split; try assumption.
  unfold snap. now rewrite F.
Qed.

(** C4 (hard-cut fallback).  When no paragraph break and no sentence break
    starts in the 100 characters after the raw cut, the chunk ends at the
    raw cut. *)
Theorem hard_cut_fallback (t : text) (s : nat) (k : Z) (w raw : nat) :
  raw_cut t s k = (w, raw) -> 0 < w ->
  (forall j, raw <= j < raw + 100 -> ~ occurs_at para_break t j) ->
  (forall j, raw <= j < raw + 100 -> ~ occurs_at sentence_break t j) ->
  segment t s k = Some raw.
Proof.
  intros R Hw Hp Hd. apply segment_Some. exists w, raw.
  repeat split; try assumption. unfold snap.
  rewrite (window_miss _ _ _ para_break_nonempty Hp).
  now rewrite (window_miss _ _ _ sentence_break_nonempty Hd).
Qed.

(** C5 (segmenter progress).  An end offset that the segmenter returns is
    at least the start offset, and it equals the start offset only if the
    trimmed span is empty and no word is left at the start; when the
    segmenter returns none, no word is left at the start. *)
Theorem segment_progress (t : text) (s : nat) (k : Z) :
  match segment t s k with
  | Some e =>
      s <= e
      /\ (e = s -> strip (slice t s e) = []
                   /\ count_words (slice_from t s) = 0)
  | None => count_words (slice_from t s) = 0
  end.
Proof.
  destruct (segment t s k) as [e|] eqn:E.
  - pose proof (segment_advances _ _ _ _ E). split; [lia|]. intros ->. lia.
  - exact (proj1 (segment_None t s k) E).
Qed.

(** C10 (search strategy).  The segmenter whose two searches are bounded to
    the 100-character window from the start returns what the segmenter of
    the program returns, which searches the rest of the text and checks the
    window afterwards. *)
Theorem search_strategy_equivalence (t : text) (s : nat) (k : Z) :
  segment_bounded t s k = segment t s k.
Proof.
  unfold segment_bounded, segment. destruct (raw_cut t s k) as [w l].
  now rewrite snap_bounded_eq.
Qed.

(** The window of the equivalence is a window of offsets, as in the test of
    the program.  A search over the slice of the window is another search:
    it does not see a break that starts at the last offset of the window,
    which the program accepts. *)
Remark sliced_search_differs :
  found_before (find para_break edge_text 1) (1 + 100) = Some 100
  /\ find_bounded para_break edge_text 1 100 = Some 100
  /\ find_sliced para_break edge_text 1 100 = None.
Proof. vm_compute. repeat split; reflexivity. Qed.

(** ** One pass of the loop *)

Lemma iteration_cases (t : text) (k : Z) (st : loop_state) :
  (length t <= current_pos st /\ iteration t k st = Stop Cursor_at_end st)
  \/ (current_pos st < length t
      /\ segment t (current_pos st) k = None
      /\ iteration t k st = Stop No_words st)
  \/ (current_pos st < length t
      /\ exists e, segment t (current_pos st) k = Some e
         /\ ((chunk_text (next_chunk t st e) = []
              /\ iteration t k st = Stop Empty_chunk st)
             \/ (chunk_text (next_chunk t st e) <> []
                 /\ write_ok (next_chunk t st e) = false
                 /\ iteration t k st = Stop Write_error st)
             \/ (chunk_text (next_chunk t st e) <> []
                 /\ write_ok (next_chunk t st e) = true
                 /\ add_one_day (current_date st) = None
                 /\ iteration t k st =
                    Stop Date_overflow
                      {| current_pos := e;
                         current_date := current_date st;
                         chunk_count := chunk_count st;
                         pbar := pbar st;
                         written := written st ++ [next_chunk t st e] |})
             \/ (chunk_text (next_chunk t st e) <> []
                 /\ write_ok (next_chunk t st e) = true
                 /\ exists tomorrow,
                    add_one_day (current_date st) = Some tomorrow
                    /\ iteration t k st =
                       Next
                         {| current_pos := e;
                            current_date := tomorrow;
                            chunk_count := S (chunk_count st);
                            pbar := pbar st
                                    + actual_words (next_chunk t st e);
                            written :=
                              written st ++ [next_chunk t st e] |}))).
Proof.
  unfold iteration.
  destruct (current_pos st <? length t) eqn:L; cbn [negb].
  2:{ apply Nat.ltb_ge in L. left. auto. }
  apply Nat.ltb_lt in L. right.
  destruct (segment t (current_pos st) k) as [e|] eqn:S; [right|left; auto].
  split; [assumption|]. exists e. split; [reflexivity|].
  destruct (chunk_text (next_chunk t st e)) as [|x u] eqn:C; [left; auto|].
  right.
  destruct (write_ok (next_chunk t st e)) eqn:W; cbn [negb];
    [right|left; repeat split; auto; discriminate].
  destruct (add_one_day (current_date st)) as [d|] eqn:D.
  - right. repeat split; [discriminate|]. exists d. auto.
  - left. repeat split; auto. discriminate.
Qed.

(** ** The loop *)

(** The rule of the loop: [I] holds before each pass, [F] when it is left. *)
Lemma split_loop_rule (t : text) (k : Z) (I F : loop_state -> Prop) :
  (forall st, I st ->
     match iteration t k st with
     | Next st' => I st'
     | Stop _ st' => F st'
     end) ->
  (forall st, I st -> F st) ->
  forall fuel st, I st -> F (snd (split_loop fuel t k st)).
Proof.
  intros Hstep Hfin. induction fuel as [|fuel IH]; intros st HI; simpl.
  - now apply Hfin.
  - specialize (Hstep st HI). destruct (iteration t k st); simpl; auto.
Qed.

Lemma contiguous_snoc (a b : nat) (cs : list chunk) (c : chunk) :
  contiguous a cs b -> chunk_start c = b -> b < chunk_end c ->
  contiguous a (cs ++ [c]) (chunk_end c).
Proof.
  revert a. induction cs as [|x cs IH]; simpl; intros a.
  - intros -> -> ?. auto.
  - intros (H1 & H2 & H3) ? ?. repeat split; auto.
Qed.

Lemma contiguous_le (a b : nat) (cs : list chunk) :
  contiguous a cs b -> a <= b.
Proof.
  revert a. induction cs as [|x cs IH]; simpl; intros a.
  - intros ->. lia.
  - intros (_ & H2 & H3). specialize (IH _ H3). lia.
Qed.

Lemma covers_snoc (t : text) (s0 : nat) (st st' : loop_state) (e : nat) :
  covers t s0 st -> current_pos st < e ->
  current_pos st' = e -> written st' = written st ++ [next_chunk t st e] ->
  covers t s0 st'.
Proof.
  intros (H1 & H2 & H3) He Hpos Hw. unfold covers. rewrite Hpos, Hw.
  repeat split.
  - apply (contiguous_snoc _ _ _ (next_chunk t st e) H1); simpl; auto.
  - rewrite map_app, concat_app, H2. simpl. rewrite app_nil_r.
    unfold span_text. simpl. apply slice_app; [|lia].
    now apply contiguous_le in H1.
  - apply Forall_app. split; [assumption|]. constructor; [|constructor].
    reflexivity.
Qed.

Lemma iteration_covers (t : text) (k : Z) (s0 : nat) (st : loop_state) :
  covers t s0 st -> covers t s0 (state_of (iteration t k st)).
Proof.
  intros H.
  destruct (iteration_cases t k st)
    as [(_ & ->)|[(_ & _ & ->)|(_ & e & S & [(_ & ->)|[(_ & _ & ->)|
        [(_ & _ & _ & ->)|(_ & _ & d & _ & ->)]]])]]; simpl; try assumption;
    apply segment_advances in S;
    (apply (covers_snoc t s0 st _ e H); [lia|reflexivity|reflexivity]).
Qed.

(** C6 (schedule coverage).  However far the loop runs from the cursor [s0],
    the chunks written tile the offsets from [s0] to the final cursor: each
    starts where the one before it ended and is not empty, their untrimmed
    spans joined in order are [t[s0:final cursor]], and the text written for
    each is its span with the white space at its two ends removed. *)
Theorem schedule_coverage (fuel : nat) (t : text) (k : Z) (s0 : nat) (d0 : Z) :
  let st := snd (split_loop fuel t k (initial_state s0 d0)) in
  contiguous s0 (written st) (current_pos st)
  /\ concat (map (span_text t) (written st)) = slice t s0 (current_pos st)
  /\ Forall (fun c => chunk_text c = strip (span_text t c)) (written st).
Proof.
  apply (split_loop_rule t k (covers t s0) (covers t s0)).
  - intros st H. pose proof (iteration_covers t k s0 st H) as C.
    destruct (iteration t k st); exact C.
  - auto.
  - unfold covers. simpl. rewrite slice_same. repeat split. constructor.
Qed.

Lemma add_one_day_Some (d d' : Z) : add_one_day d = Some d' -> d' = (d + 1)%Z.
Proof.
  unfold add_one_day. destruct (d <? max_ordinal)%Z; [|discriminate].
  now intros [= <-].
Qed.

Lemma consecutive_days_snoc (d0 : Z) (n : nat) :
  consecutive_days d0 (n + 1)
  = consecutive_days d0 n ++ [(d0 + Z.of_nat n)%Z].
Proof.
  unfold consecutive_days. rewrite Nat.add_1_r, seq_S, map_app. reflexivity.
Qed.

Lemma dated_snoc (t : text) (d0 : Z) (st st' : loop_state) (e : nat) :
  dated_next d0 st -> written st' = written st ++ [next_chunk t st e] ->
  dated d0 st'.
Proof.
  intros (H1 & H2) Hw. unfold dated. rewrite Hw, map_app, length_app. simpl.
  now rewrite consecutive_days_snoc, H1, H2.
Qed.

Lemma iteration_dated (t : text) (k : Z) (d0 : Z) (st : loop_state) :
  dated_next d0 st ->
  match iteration t k st with
  | Next st' => dated_next d0 st'
  | Stop _ st' => dated d0 st'
  end.
Proof.
  intros H.
  destruct (iteration_cases t k st)
    as [(_ & ->)|[(_ & _ & ->)|(_ & e & S & [(_ & ->)|[(_ & _ & ->)|
        [(_ & _ & _ & ->)|(_ & _ & d & D & ->)]]])]];
    try exact (proj1 H).
  - eapply dated_snoc; [exact H|reflexivity].
  - split; [eapply dated_snoc; [exact H|reflexivity]|]. simpl.
    apply add_one_day_Some in D. rewrite D, (proj2 H), length_app. simpl. lia.
Qed.

(** C7 (date monotonicity).  The dates of the chunks written are the start
    date, the start date plus one day, plus two days, and so on: chunk [i]
    has the date of chunk 0 plus [i] days. *)
Theorem date_monotonicity (fuel : nat) (t : text) (k : Z) (s0 : nat) (d0 : Z) :
  let st := snd (split_loop fuel t k (initial_state s0 d0)) in
  map chunk_date (written st) = consecutive_days d0 (length (written st)).
Proof.
  apply (split_loop_rule t k (dated_next d0) (dated d0)).
  - apply iteration_dated.
  - intros st H. exact (proj1 H).
  - split; [reflexivity|]. simpl. lia.
Qed.

(** The same, chunk by chunk. *)
Corollary date_of_chunk (fuel : nat) (t : text) (k : Z) (s0 : nat) (d0 : Z)
    (i : nat) (c : chunk) :
  nth_error (written (snd (split_loop fuel t k (initial_state s0 d0)))) i
    = Some c ->
  chunk_date c = (d0 + Z.of_nat i)%Z.
Proof.
  intros H. pose proof (split_loop_rule t k (dated_next d0) (dated d0)
    (iteration_dated t k d0) (fun st H => proj1 H) fuel (initial_state s0 d0))
    as D.
  assert (I0 : dated_next d0 (initial_state s0 d0))
    by (split; [reflexivity|simpl; lia]).
  specialize (D I0). unfold dated in D.
  assert (Hi : i < length (written (snd (split_loop fuel t k
                                          (initial_state s0 d0)))))
    by (apply nth_error_Some; congruence).
  apply (map_nth_error chunk_date) in H. rewrite D in H.
  unfold consecutive_days in H. rewrite nth_error_map, nth_error_seq in H.
  apply Nat.ltb_lt in Hi. rewrite Hi in H. simpl in H. congruence.
Qed.

(** ** Termination *)

Lemma iteration_Next (t : text) (k : Z) (st st' : loop_state) :
  iteration t k st = Next st' ->
  current_pos st < current_pos st' <= length t
  /\ exists c, written st' = written st ++ [c] /\ chunk_text c <> [].
Proof.
  intros H.
  destruct (iteration_cases t k st)
    as [(_ & E)|[(_ & _ & E)|(_ & e & S & [(_ & E)|[(_ & _ & E)|
        [(_ & _ & _ & E)|(C & _ & d & _ & E)]]])]];
    rewrite E in H; try discriminate.
  injection H as <-. simpl. apply segment_advances in S.
  split; [lia|]. exists (next_chunk t st e). auto.
Qed.

Lemma iteration_fuel (t : text) (k : Z) (st st' : loop_state) :
  iteration t k st <> Stop Out_of_fuel st'.
Proof.
  destruct (iteration_cases t k st)
    as [(_ & E)|[(_ & _ & E)|(_ & e & S & [(_ & E)|[(_ & _ & E)|
        [(_ & _ & _ & E)|(C & _ & d & _ & E)]]])]];
    rewrite E; discriminate.
Qed.

(** One pass more than there are characters after the cursor is enough. *)
Lemma split_loop_enough (t : text) (k : Z) (fuel : nat) (st : loop_state) :
  length t - current_pos st < fuel ->
  fst (split_loop fuel t k st) <> Out_of_fuel.
Proof.
  revert st. induction fuel as [|fuel IH]; intros st Hf; [lia|]. simpl.
  destruct (iteration t k st) as [why st'|st'] eqn:E; simpl.
  - intros ->. exact (iteration_fuel _ _ _ _ E).
  - apply IH. apply iteration_Next in E. lia.
Qed.


Ltac iteration_analysis t k st :=
  destruct (iteration_cases t k st)
    as [(?L & ?E)|[(?L & ?S & ?E)|(?L & ?e & ?S & [(?C & ?E)|[(?C & ?W & ?E)|
        [(?C & ?W & ?D & ?E)|(?C & ?W & ?d & ?D & ?E)]]])]].



Lemma iteration_stop_empty (t : text) (k : Z) (st : loop_state) :
  iteration t k st = Stop Empty_chunk st <->
  current_pos st < length t
  /\ exists e, segment t (current_pos st) k = Some e
               /\ strip (slice t (current_pos st) e) = [].
Proof.
  split.
  - intros H. iteration_analysis t k st; rewrite E in H; try discriminate.
    split; [assumption|]. exists e. auto.
  - intros (H & e' & S' & C').
    iteration_analysis t k st; try lia; try congruence;
      assert (e = e') by congruence; subst e'; simpl in C; congruence.
Qed.


(** ** The empty-chunk exit *)

Lemma lstrip_keeps (u : text) (c : char) :
  In c u -> is_space c = false -> In c (lstrip u).
Proof.
  induction u as [|x u IH]; simpl; [tauto|]. intros [->|H] Hc.
  - rewrite Hc. now left.
  - destruct (is_space x); [now apply IH|now right].
Qed.

Lemma strip_keeps (u : text) (c : char) :
  In c u -> is_space c = false -> In c (strip u).
Proof.
  intros H Hc. unfold strip, rstrip. apply -> in_rev.
  apply lstrip_keeps; [|assumption]. apply -> in_rev.
  now apply lstrip_keeps.
Qed.

Lemma count_loop_last (matches : list (nat * nat)) (pos : nat) (k : Z)
    (w0 l0 w l : nat) :
  count_loop matches pos k w0 l0 = (w, l) -> matches <> [] ->
  exists m, In m matches /\ l = pos + snd m.
Proof.
  revert w0 l0. induction matches as [|m rest IH]; intros w0 l0;
    [congruence|]. simpl.
  match goal with |- context [(?a >=? ?b)%Z] => destruct (a >=? b)%Z end.
  - intros [= <- <-] _. exists m. auto.
  - intros H _. destruct rest as [|m' rest'].
    + simpl in H. injection H as <- <-. exists m. auto.
    + destruct (IH _ _ H ltac:(discriminate)) as (x & Hx & ->).
      exists x. split; [now right|reflexivity].
Qed.

(** A chunk contains the last word counted. *)
Lemma segment_has_word (t : text) (s : nat) (k : Z) (e : nat) :
  segment t s k = Some e ->
  exists c, In c (slice t s e) /\ is_word c = true.
Proof.
  intros H. apply segment_Some in H. destruct H as (w & l & R & Hw & ->).
  pose proof (snap_bounds t l) as [Hsnap _]. unfold raw_cut in R.
  destruct (word_matches (slice_from t s)) as [|m0 ms] eqn:M.
  { simpl in R. injection R as <- <-. lia. }
  destruct (count_loop_last _ _ _ _ _ _ _ R ltac:(discriminate))
    as (m & Hm & ->).
  pose proof (word_matches_tokens (slice_from t s)) as T. rewrite M in T.
  rewrite Forall_forall in T. destruct (T m Hm) as (H1 & H2 & _).
  specialize (H2 (fst m) ltac:(lia)). unfold word_at, slice_from in H2.
  destruct (nth_error (skipn s t) (fst m)) as [c|] eqn:N; [|discriminate].
  exists c. split; [|assumption].
  apply (nth_error_In _ (fst m)). unfold slice.
  rewrite nth_error_firstn.
  replace (fst m <? snap t (s + snd m) - s) with true; [assumption|].
  symmetry. apply Nat.ltb_lt. lia.
Qed.

(** Word characters are not white space in Python's tables; then a chunk is
    never empty after trimming, and the loop is never left for that. *)
Lemma chunk_not_empty (t : text) (s : nat) (k : Z) (e : nat) :
  (forall c, is_word c = true -> is_space c = false) ->
  segment t s k = Some e -> strip (slice t s e) <> [].
Proof.
  intros Hdisj H. destruct (segment_has_word _ _ _ _ H) as (c & Hin & Hc).
  pose proof (strip_keeps _ _ Hin (Hdisj _ Hc)) as K.
  intros E. now rewrite E in K.
Qed.

Lemma no_empty_chunk_exit (t : text) (k : Z) (st : loop_state) :
  (forall c, is_word c = true -> is_space c = false) ->
  iteration t k st <> Stop Empty_chunk st.
Proof.
  intros Hdisj H. apply iteration_stop_empty in H.
  destruct H as (_ & e & S & C). exact (chunk_not_empty _ _ _ _ Hdisj S C).
Qed.





(** ** Counting words *)

Lemma finditer_words_length (t : text) (p p' : nat) :
  (forall s s', length (finditer_words p (Some s) t)
                = length (finditer_words p' (Some s') t))
  /\ length (finditer_words p None t) = length (finditer_words p' None t).
Proof.
  revert p p'. induction t as [|c t IH]; intros p p'; simpl; [auto|].
  destruct (IH (S p) (S p')) as [IHs IHn].
  destruct (is_word c); simpl; split; intros; auto.
Qed.

Lemma finditer_words_count (t : text) (p : nat) :
  length (finditer_words p None t) = count_words t.
Proof. apply finditer_words_length. Qed.

(** A character that is not a word character cuts the scan in two. *)
Lemma finditer_words_app_nonword (a b : text) (c : char) (pos : nat)
    (cur : option nat) :
  is_word c = false ->
  finditer_words pos cur (a ++ c :: b)
  = finditer_words pos cur a ++ finditer_words (pos + length a + 1) None b.
Proof.
  intros Hc. revert pos cur. induction a as [|x a IH]; intros pos cur; simpl.
  - rewrite Hc. replace (pos + 0 + 1) with (S pos) by lia.
    destruct cur; reflexivity.
  - replace (pos + S (length a) + 1) with (S pos + length a + 1) by lia.
    destruct (is_word x); [apply IH|].
    destruct cur; simpl; now rewrite IH.
Qed.

Lemma count_words_nonword_cons (c : char) (t : text) :
  is_word c = false -> count_words (c :: t) = count_words t.
Proof.
  intros Hc. unfold count_words, word_matches. simpl. rewrite Hc.
  apply finditer_words_count.
Qed.

Lemma count_words_nil : count_words [] = 0.
Proof. reflexivity. Qed.

(** The words of two texts joined by a character that is not a word
    character are the words of the one and the words of the other. *)
Lemma count_words_app_nonword (a b : text) (c : char) :
  is_word c = false ->
  count_words (a ++ c :: b) = count_words a + count_words b.
Proof.
  intros Hc. unfold count_words at 1 2. unfold word_matches.
  rewrite (finditer_words_app_nonword _ _ _ _ _ Hc), length_app.
  f_equal. apply finditer_words_count.
Qed.

Lemma finditer_words_open (t : text) (p s : nat) :
  finditer_words p (Some s) t <> [].
Proof.
  revert p s. induction t as [|c t IH]; intros p s; simpl; [discriminate|].
  destruct (is_word c); [apply IH|discriminate].
Qed.

(** No word is counted exactly when the text has no word character. *)
Lemma count_words_zero (t : text) :
  count_words t = 0 <-> forallb (fun c => negb (is_word c)) t = true.
Proof.
  induction t as [|c t IH]; simpl; [split; reflexivity|].
  destruct (is_word c) eqn:W; simpl.
  - split; [|discriminate]. unfold count_words, word_matches. simpl.
    rewrite W. intros H. apply length_zero_iff_nil in H.
    now apply finditer_words_open in H.
  - now rewrite (count_words_nonword_cons _ _ W).
Qed.

Lemma count_words_app_nonwords (a sp : text) :
  forallb (fun c => negb (is_word c)) sp = true ->
  count_words (a ++ sp) = count_words a.
Proof.
  destruct sp as [|c sp]; simpl; [now rewrite app_nil_r|].
  rewrite andb_true_iff, negb_true_iff. intros [Hc Hsp].
  rewrite (count_words_app_nonword _ _ _ Hc).
  apply count_words_zero in Hsp. lia.
Qed.

Lemma firstn_succ_nth (u : text) (n : nat) (c : char) :
  nth_error u n = Some c -> firstn (S n) u = firstn n u ++ [c].
Proof.
  revert u. induction n as [|n IH]; intros [|x u]; simpl; try discriminate.
  - now intros [= ->].
  - intros H. f_equal. now apply IH.
Qed.

(** The text can be cut, without cutting a word, at an offset that has no
    word character on one of its sides. *)
Lemma count_words_split (u : text) (n : nat) :
  word_at u n = false \/ (0 < n /\ word_at u (n - 1) = false) ->
  count_words u = count_words (firstn n u) + count_words (skipn n u).
Proof.
  intros [H|[Hn H]].
  - destruct (skipn n u) as [|c rest] eqn:Sk.
    + rewrite <- (firstn_skipn n u) at 1. rewrite Sk, app_nil_r.
      rewrite count_words_nil. lia.
    + destruct (skipn_cons_inv _ _ _ _ Sk) as (N & _ & _).
      unfold word_at in H. rewrite N in H.
      rewrite <- (firstn_skipn n u) at 1. rewrite Sk.
      rewrite (count_words_app_nonword _ _ _ H).
      now rewrite (count_words_nonword_cons _ _ H).
  - destruct (skipn (n - 1) u) as [|c rest] eqn:Sk.
    + assert (L : length u <= n - 1).
      { assert (E : length (skipn (n - 1) u) = 0) by now rewrite Sk.
        rewrite length_skipn in E. lia. }
      rewrite firstn_all2, skipn_all2 by lia. rewrite count_words_nil. lia.
    + destruct (skipn_cons_inv _ _ _ _ Sk) as (N & R & L).
      unfold word_at in H. rewrite N in H.
      replace (S (n - 1)) with n in R by lia.
      assert (F : firstn n u = firstn (n - 1) u ++ [c]).
      { replace n with (S (n - 1)) at 1 by lia.
        now apply firstn_succ_nth. }
      rewrite <- (firstn_skipn (n - 1) u) at 1. rewrite Sk, F, R.
      rewrite (count_words_app_nonword _ _ _ H).
      rewrite (count_words_app_nonwords _ [c]); [reflexivity|].
      simpl. now rewrite H.
Qed.

(** ** The words of a chunk *)

(** Every match ends after the offset the scan is at. *)
Lemma finditer_words_from (t : text) (pos : nat) (cur : option nat) :
  (forall s, cur = Some s -> s < pos) ->
  Forall (fun m => pos <= snd m) (finditer_words pos cur t).
Proof.
  revert pos cur.
  induction t as [|c t IH]; intros pos cur Hcur; simpl.
  - destruct cur; constructor; simpl; auto.
  - assert (Step : forall cur', (forall s, cur' = Some s -> s < S pos) ->
        Forall (fun m => pos <= snd m) (finditer_words (S pos) cur' t)).
    { intros cur' H. eapply Forall_impl; [|apply (IH (S pos) cur' H)].
      simpl. intros m. lia. }
    destruct (is_word c).
    + apply Step. intros s [= <-]. destruct cur as [s'|]; [|lia].
      specialize (Hcur s' eq_refl). lia.
    + destruct cur as [s|].
      * constructor; [simpl; lia|]. apply Step. discriminate.
      * apply Step. discriminate.
Qed.

(** How many matches the counting loop takes. *)
Lemma count_loop_fst (ms : list (nat * nat)) (pos : nat) (k : Z)
    (w0 l0 : nat) :
  ms <> [] ->
  Z.of_nat (fst (count_loop ms pos k w0 l0))
  = Z.min (Z.max k (Z.of_nat w0 + 1)) (Z.of_nat w0 + Z.of_nat (length ms)).
Proof.
  revert w0 l0. induction ms as [|m rest IH]; intros w0 l0 Hne;
    [congruence|].
  cbn [count_loop].
  destruct (Z.geb_spec (Z.of_nat (S w0)) k) as [G|G].
  - cbn [fst length]. lia.
  - destruct rest as [|m' rest'].
    + cbn [count_loop fst length]. lia.
    + rewrite IH by discriminate. cbn [length]. lia.
Qed.

(** The last match it takes. *)
Lemma count_loop_nth (ms : list (nat * nat)) (pos : nat) (k : Z)
    (w0 l0 w l : nat) :
  count_loop ms pos k w0 l0 = (w, l) -> ms <> [] ->
  w0 < w <= w0 + length ms
  /\ exists m, nth_error ms (w - w0 - 1) = Some m /\ l = pos + snd m.
Proof.
  revert w0 l0. induction ms as [|m rest IH]; intros w0 l0;
    [congruence|].
  cbn [count_loop].
  destruct (Z.geb_spec (Z.of_nat (S w0)) k) as [G|G].
  - intros [= <- <-] _. cbn [length]. split; [lia|]. exists m.
    replace (S w0 - w0 - 1) with 0 by lia. auto.
  - intros H _. destruct rest as [|m' rest'].
    + cbn [count_loop] in H. injection H as <- <-. cbn [length].
      split; [lia|]. exists m. replace (S w0 - w0 - 1) with 0 by lia. auto.
    + destruct (IH _ _ H ltac:(discriminate)) as (Hw & x & Hx & ->).
      cbn [length] in *. split; [lia|]. exists x.
      replace (w - w0 - 1) with (S (w - S w0 - 1)) by lia. auto.
Qed.

(** The raw cut counts as many words as the target says, never fewer than
    one, and no more than are left. *)
Lemma raw_cut_words (t : text) (s : nat) (k : Z) :
  Z.of_nat (fst (raw_cut t s k))
  = Z.min (Z.max k 1) (Z.of_nat (count_words (slice_from t s))).
Proof.
  unfold raw_cut, count_words.
  destruct (word_matches (slice_from t s)) as [|m ms] eqn:M.
  - cbn [count_loop fst length]. lia.
  - rewrite count_loop_fst by discriminate. lia.
Qed.

(** The raw cut is at the end of a word of the text after the cursor, and
    the words counted lie before it. *)
Lemma raw_cut_at_token (t : text) (s : nat) (k : Z) (w l : nat) :
  raw_cut t s k = (w, l) -> 0 < w ->
  s < l /\ word_at (slice_from t s) (l - s) = false
  /\ w <= count_words (firstn (l - s) (slice_from t s)).
Proof.
  unfold raw_cut. intros R Hw. set (u := slice_from t s) in *.
  destruct (word_matches u) as [|m0 ms0] eqn:M.
  { cbn in R. injection R as <- <-. lia. }
  destruct (count_loop_nth _ _ _ _ _ _ _ R ltac:(discriminate))
    as (Hb & m & Hm & ->).
  rewrite <- M in Hm. replace (w - 0 - 1) with (w - 1) in Hm by lia.
  pose proof (word_matches_tokens u) as T. rewrite Forall_forall in T.
  destruct (T m (nth_error_In _ _ Hm)) as (H1 & _ & _ & H4).
  replace (s + snd m - s) with (snd m) by lia.
  repeat split; [lia|assumption|].
  (* the matches before the cut are those of the prefix *)
  destruct (Nat.le_gt_cases w (count_words (firstn (snd m) u)))
    as [|Hlt]; [assumption|exfalso].
  destruct (skipn (snd m) u) as [|c rest] eqn:Sk.
  - rewrite <- (firstn_skipn (snd m) u) in Hm at 1.
    rewrite Sk, app_nil_r in Hm.
    assert (w - 1 < count_words (firstn (snd m) u))
      by (apply nth_error_Some; unfold count_words; congruence).
    lia.
  - destruct (skipn_cons_inv _ _ _ _ Sk) as (N & _ & _).
    unfold word_at in H4. rewrite N in H4.
    rewrite <- (firstn_skipn (snd m) u) in Hm at 1. rewrite Sk in Hm.
    unfold word_matches in Hm.
    rewrite (finditer_words_app_nonword _ _ _ _ _ H4) in Hm.
    rewrite nth_error_app2 in Hm
      by (unfold count_words, word_matches in Hlt; lia).
    apply nth_error_In in Hm.
    pose proof (finditer_words_from rest (0 + length (firstn (snd m) u) + 1)
                  None ltac:(discriminate)) as B.
    rewrite Forall_forall in B. specialize (B m Hm).
    rewrite length_firstn in B. lia.
Qed.

(** ** The word counter and the raw cut *)

Lemma finditer_words_bound (t : text) (p : nat) :
  (forall s, 2 * length (finditer_words p (Some s) t) <= length t + 2)
  /\ 2 * length (finditer_words p None t) <= length t + 1.
Proof.
  revert p. induction t as [|c t IH]; intros p; simpl; [split; auto|].
  destruct (IH (S p)) as [IHs IHn].
  pose proof (IHs p) as IHp.
  destruct (is_word c); split; intros; simpl;
    try pose proof (IHs s); lia.
Qed.

(** X13 (what is counted).  Every match that the word counter counts is a
    run of word characters of the text that cannot be extended on either
    side, and a text of [n] characters has at most [(n + 1) / 2] words. *)
Theorem counted_words_are_runs (t : text) :
  Forall (is_token t) (word_matches t)
  /\ 2 * count_words t <= length t + 1.
Proof.
  split; [apply word_matches_tokens|]. apply finditer_words_bound.
Qed.

(** X14 (words across a separator).  The words of two texts joined by a
    character that is not a word character are the words of the first plus
    the words of the second. *)
Theorem words_add_up (a b : text) (c : char) :
  is_word c = false ->
  count_words (a ++ c :: b) = count_words a + count_words b.
Proof. apply count_words_app_nonword. Qed.

(** X15 (no words).  The word counter returns zero exactly for the texts
    that have no word character. *)
Theorem no_words_iff (t : text) :
  count_words t = 0 <-> forallb (fun c => negb (is_word c)) t = true.
Proof. apply count_words_zero. Qed.

(** X16 (words at the raw cut).  The counting loop stops after as many
    words as the target says, after one word when the target is below one
    (zero or negative settings), and after the last word when fewer are
    left. *)
Theorem raw_cut_word_count (t : text) (s : nat) (k : Z) :
  Z.of_nat (fst (raw_cut t s k))
  = Z.min (Z.max k 1) (Z.of_nat (count_words (slice_from t s))).
Proof. apply raw_cut_words. Qed.

(** ** Trimming *)

Lemma lstrip_app (a b : text) :
  lstrip (a ++ b)
  = match lstrip a with [] => lstrip b | _ :: _ => lstrip a ++ b end.
Proof.
  induction a as [|x a IH]; simpl; [reflexivity|].
  destruct (is_space x); [exact IH|reflexivity].
Qed.

Lemma rstrip_cons (x : char) (w : text) :
  rstrip (x :: w)
  = match rstrip w with
    | [] => if is_space x then [] else [x]
    | _ :: _ => x :: rstrip w
    end.
Proof.
  unfold rstrip. simpl. rewrite lstrip_app.
  destruct (lstrip (rev w)) as [|y r]; simpl.
  - destruct (is_space x); reflexivity.
  - rewrite rev_app_distr. simpl.
    destruct (rev r ++ [y]) eqn:E; [|reflexivity].
    now destruct (rev r).
Qed.

Lemma rstrip_nil : rstrip [] = [].
Proof. reflexivity. Qed.

Lemma lstrip_split (u : text) :
  exists sp, u = sp ++ lstrip u /\ forallb is_space sp = true.
Proof.
  induction u as [|x u (sp & E & F)]; simpl; [now exists []|].
  destruct (is_space x) eqn:X.
  - exists (x :: sp). simpl. rewrite X, F. split; [now f_equal|reflexivity].
  - now exists [].
Qed.

Lemma rstrip_split (u : text) :
  exists sp, u = rstrip u ++ sp /\ forallb is_space sp = true.
Proof.
  induction u as [|x u (sp & E & F)]; [now exists []|].
  rewrite rstrip_cons. destruct (rstrip u) as [|y r].
  - simpl in E. subst u. destruct (is_space x) eqn:X.
    + exists (x :: sp). simpl. now rewrite X, F.
    + now exists sp.
  - exists sp. split; [|assumption]. simpl. now rewrite E at 1.
Qed.

Lemma lstrip_fixed (x : char) (w : text) :
  is_space x = false -> lstrip (x :: w) = x :: w.
Proof. intros H. simpl. now rewrite H. Qed.

Lemma lstrip_head (u : text) :
  lstrip u = [] \/ exists x w, lstrip u = x :: w /\ is_space x = false.
Proof.
  induction u as [|x u IH]; simpl; [now left|].
  destruct (is_space x) eqn:X; [exact IH|]. right. now exists x, u.
Qed.

Lemma rstrip_idempotent (u : text) : rstrip (rstrip u) = rstrip u.
Proof.
  induction u as [|x u IH]; [reflexivity|]. rewrite rstrip_cons.
  destruct (rstrip u) as [|y r] eqn:R.
  - destruct (is_space x) eqn:X; [reflexivity|].
    rewrite rstrip_cons, rstrip_nil. now rewrite X.
  - rewrite rstrip_cons, IH. reflexivity.
Qed.

(** A trimmed text has no white space at its ends: trimming it again
    changes nothing. *)
Lemma strip_idempotent (u : text) : strip (strip u) = strip u.
Proof.
  unfold strip at 1. 
  assert (L : lstrip (strip u) = strip u).
  { unfold strip. destruct (lstrip_head u) as [E|(x & w & E & X)].
    - now rewrite E.
    - rewrite E, rstrip_cons.
      destruct (rstrip w); [rewrite X|]; now apply lstrip_fixed. }
  rewrite L. unfold strip. apply rstrip_idempotent.
Qed.

Lemma spaces_are_nonwords (sp : text) :
  words_not_spaces -> forallb is_space sp = true ->
  forallb (fun c => negb (is_word c)) sp = true.
Proof.
  intros Hd H. rewrite forallb_forall in *. intros c Hc.
  specialize (H c Hc). destruct (is_word c) eqn:W; [|reflexivity].
  rewrite (Hd c W) in H. discriminate.
Qed.

Lemma count_words_nonwords_app (sp a : text) :
  forallb (fun c => negb (is_word c)) sp = true ->
  count_words (sp ++ a) = count_words a.
Proof.
  induction sp as [|c sp IH]; simpl; [reflexivity|].
  rewrite andb_true_iff, negb_true_iff. intros [Hc Hsp].
  rewrite (count_words_nonword_cons _ _ Hc). now apply IH.
Qed.

(** Trimming removes no word. *)
Lemma count_words_strip (u : text) :
  words_not_spaces -> count_words (strip u) = count_words u.
Proof.
  intros Hd. unfold strip.
  destruct (lstrip_split u) as (sp1 & E1 & F1).
  destruct (rstrip_split (lstrip u)) as (sp2 & E2 & F2).
  rewrite E1 at 2. rewrite (count_words_nonwords_app _ _
                              (spaces_are_nonwords _ Hd F1)).
  rewrite E2 at 2. now rewrite (count_words_app_nonwords _ _
                                  (spaces_are_nonwords _ Hd F2)).
Qed.

(** ** Chunks and words *)

Lemma occurs_at_second (c1 c2 : char) (t : text) (p : nat) :
  occurs_at [c1; c2] t p -> nth_error t (p + 1) = Some c2.
Proof.
  unfold occurs_at, slice. simpl length.
  replace (p + 2 - p) with 2 by lia. intros H.
  rewrite <- (Nat.add_comm 1), Nat.add_comm, <- nth_error_skipn.
  destruct (skipn p t) as [|a [|b r]]; simpl in *; congruence.
Qed.

Lemma skipn_slice (t : text) (s e : nat) :
  s <= e -> slice_from t s = slice t s e ++ slice_from t e.
Proof.
  intros H. unfold slice, slice_from.
  rewrite <- (firstn_skipn (e - s) (skipn s t)) at 1.
  rewrite skipn_skipn. now replace (e - s + s) with e by lia.
Qed.

(** The chunk end has no word character on one of its sides: at a hard cut
    the word just counted ends there, after a break the line feed or the
    space of the break is before it. *)
Lemma segment_boundary (t : text) (s : nat) (k : Z) (e : nat) :
  segment t s k = Some e ->
  word_at (slice_from t s) (e - s) = false
  \/ (0 < e - s /\ word_at (slice_from t s) (e - s - 1) = false).
Proof.
  intros H. apply segment_Some in H. destruct H as (w & l & R & Hw & ->).
  destruct (raw_cut_at_token _ _ _ _ _ R Hw) as (Hl & Tok & _).
  assert (Brk : forall c1 c2 p, l <= p -> is_word c2 = false ->
            occurs_at [c1; c2] t p ->
            0 < p + 2 - s
            /\ word_at (slice_from t s) (p + 2 - s - 1) = false).
  { intros c1 c2 p Hp Hc O. split; [lia|]. unfold word_at, slice_from.
    rewrite nth_error_skipn. replace (s + (p + 2 - s - 1)) with (p + 1) by lia.
    now rewrite (occurs_at_second _ _ _ _ O). }
  unfold snap.
  destruct (found_before (find para_break t l) (l + 100)) as [p|] eqn:P.
  - apply found_before_Some in P. destruct P as (F & _).
    destruct (find_Some _ _ _ _ F) as (H1 & _ & H3 & _).
    right. now apply (Brk 10%N 10%N).
  - destruct (found_before (find sentence_break t l) (l + 100))
      as [d|] eqn:D; [|now left].
    apply found_before_Some in D. destruct D as (F & _).
    destruct (find_Some _ _ _ _ F) as (H1 & _ & H3 & _).
    right. now apply (Brk 46%N 32%N).
Qed.

(** The words after the cursor are the words of the chunk and the words
    after the chunk: no word is cut in two or lost. *)
Lemma segment_conserves (t : text) (s : nat) (k : Z) (e : nat) :
  segment t s k = Some e ->
  count_words (slice_from t s)
  = count_words (slice t s e) + count_words (slice_from t e).
Proof.
  intros H. pose proof (segment_advances _ _ _ _ H) as Adv.
  rewrite (count_words_split _ (e - s) (segment_boundary _ _ _ _ H)).
  unfold slice, slice_from. rewrite skipn_skipn.
  now replace (e - s + s) with e by lia.
Qed.

(** A chunk holds the words that the raw cut counted. *)
Lemma segment_words (t : text) (s : nat) (k : Z) (e : nat) :
  segment t s k = Some e ->
  (Z.min (Z.max k 1) (Z.of_nat (count_words (slice_from t s)))
   <= Z.of_nat (count_words (slice t s e)))%Z.
Proof.
  intros H. rewrite <- raw_cut_words.
  apply segment_Some in H. destruct H as (w & l & R & Hw & ->).
  rewrite R. cbn [fst].
  destruct (raw_cut_at_token _ _ _ _ _ R Hw) as (Hl & Tok & Cnt).
  pose proof (snap_bounds t l) as [Hs _].
  set (u := slice_from t s) in *. set (e := snap t l) in *.
  assert (V : word_at (firstn (e - s) u) (l - s) = false).
  { unfold word_at in *. rewrite nth_error_firstn.
    destruct (l - s <? e - s); [assumption|reflexivity]. }
  unfold slice. fold (slice_from t s). fold u.
  rewrite (count_words_split _ (l - s) (or_introl V)).
  rewrite firstn_firstn. replace (Nat.min (l - s) (e - s)) with (l - s) by lia.
  lia.
Qed.

(** ** What the loop keeps *)

(** The rule of the loop, with the way it is left. *)
Lemma split_loop_rule_exit (t : text) (k : Z) (I : loop_state -> Prop)
    (F : loop_exit -> loop_state -> Prop) :
  (forall st, I st ->
     match iteration t k st with
     | Next st' => I st'
     | Stop why st' => F why st'
     end) ->
  (forall st, I st -> F Out_of_fuel st) ->
  forall fuel st, I st ->
    F (fst (split_loop fuel t k st)) (snd (split_loop fuel t k st)).
Proof.
  intros Hstep Hfin. induction fuel as [|fuel IH]; intros st HI; simpl.
  - now apply Hfin.
  - specialize (Hstep st HI). destruct (iteration t k st); simpl; auto.
Qed.

(** A property of every chunk when it is built is a property of every file
    written. *)
Lemma written_Forall (t : text) (k : Z) (P : chunk -> Prop) :
  (forall st e, current_pos st < length t ->
     segment t (current_pos st) k = Some e ->
     chunk_text (next_chunk t st e) <> [] ->
     write_ok (next_chunk t st e) = true ->
     P (next_chunk t st e)) ->
  forall fuel st, Forall P (written st) ->
    Forall P (written (snd (split_loop fuel t k st))).
Proof.
  intros HP.
  apply (split_loop_rule t k (fun st => Forall P (written st))
           (fun st => Forall P (written st))); [|auto].
  intros st H. iteration_analysis t k st; rewrite E; try assumption;
    simpl; apply Forall_app; (split; [assumption|]);
    constructor; auto.
Qed.

Lemma words_written_snoc (cs : list chunk) (c : chunk) :
  words_written (cs ++ [c]) = words_written cs + actual_words c.
Proof.
  unfold words_written. rewrite map_app, list_sum_app. simpl. lia.
Qed.

Lemma conserved_snoc (t : text) (k : Z) (s0 : nat) (st st' : loop_state)
    (e : nat) :
  words_not_spaces -> conserved t s0 st ->
  segment t (current_pos st) k = Some e ->
  current_pos st' = e -> written st' = written st ++ [next_chunk t st e] ->
  conserved t s0 st'.
Proof.
  unfold conserved. intros Hd H S Hp Hw.
  rewrite Hp, Hw, words_written_snoc. simpl.
  rewrite (count_words_strip _ Hd).
  rewrite (segment_conserves _ _ _ _ S) in H. lia.
Qed.

Lemma iteration_conserved (t : text) (k : Z) (s0 : nat) (st : loop_state) :
  words_not_spaces -> conserved t s0 st ->
  conserved t s0 (state_of (iteration t k st)).
Proof.
  intros Hd H. iteration_analysis t k st; rewrite E; simpl; try assumption;
    apply (conserved_snoc t k s0 st _ e Hd H S); reflexivity.
Qed.

Lemma loop_conserved (fuel : nat) (t : text) (k : Z) (s0 : nat) (d0 : Z) :
  words_not_spaces ->
  conserved t s0 (snd (split_loop fuel t k (initial_state s0 d0))).
Proof.
  intros Hd.
  apply (split_loop_rule t k (conserved t s0) (conserved t s0)).
  - intros st H. pose proof (iteration_conserved t k s0 st Hd H) as C.
    destruct (iteration t k st); exact C.
  - auto.
  - reflexivity.
Qed.

(** X1 (no word lost).  When no word character is white space, the words in
    the files written and the words after the final cursor add up to the
    words of the text from the initial cursor on, however the loop is
    left. *)
Theorem words_conserved (fuel : nat) (t : text) (k : Z) (s0 : nat) (d0 : Z) :
  words_not_spaces ->
  let st := snd (split_loop fuel t k (initial_state s0 d0)) in
  words_written (written st) + count_words (slice_from t (current_pos st))
  = count_words (slice_from t s0).
Proof. intros Hd. now apply loop_conserved. Qed.

Lemma iteration_counted (t : text) (k : Z) (st : loop_state) :
  counted st ->
  match iteration t k st with
  | Next st' => counted st'
  | Stop why st' => why <> Date_overflow -> counted st'
  end.
Proof.
  intros H. iteration_analysis t k st; rewrite E; try (intros _; assumption).
  - congruence.
  - destruct H as (H1 & H2). split; simpl.
    + rewrite length_app. simpl. lia.
    + rewrite words_written_snoc. simpl. lia.
Qed.

Lemma loop_counted (fuel : nat) (t : text) (k : Z) (s0 : nat) (d0 : Z) :
  fst (split_loop fuel t k (initial_state s0 d0)) <> Date_overflow ->
  counted (snd (split_loop fuel t k (initial_state s0 d0))).
Proof.
  apply (split_loop_rule_exit t k counted
           (fun why st => why <> Date_overflow -> counted st)).
  - apply iteration_counted.
  - auto.
  - split; reflexivity.
Qed.

(** X2 (counters).  Unless the date overflows, the chunk counter is the
    number of files written and the progress bar has been advanced by the
    sum of their word counts. *)
Theorem counters_agree (fuel : nat) (t : text) (k : Z) (s0 : nat) (d0 : Z) :
  let r := split_loop fuel t k (initial_state s0 d0) in
  fst r <> Date_overflow ->
  chunk_count (snd r) = length (written (snd r))
  /\ pbar (snd r) = words_written (written (snd r)).
Proof. apply loop_counted. Qed.

Lemma split_loop_exits (t : text) (k : Z) (fuel : nat) (st : loop_state) :
  words_not_spaces ->
  match fst (split_loop fuel t k st) with
  | Cursor_at_end => length t <= current_pos (snd (split_loop fuel t k st))
  | No_words =>
      count_words (slice_from t (current_pos (snd (split_loop fuel t k st))))
      = 0
  | Empty_chunk => False
  | _ => True
  end.
Proof.
  intros Hd.
  apply (split_loop_rule_exit t k (fun _ => True)
           (fun why st =>
              match why with
              | Cursor_at_end => length t <= current_pos st
              | No_words => count_words (slice_from t (current_pos st)) = 0
              | Empty_chunk => False
              | _ => True
              end)); auto.
  intros st0 _. iteration_analysis t k st0; rewrite E; auto.
  - exact (proj1 (segment_None _ _ _) S).
  - exact (chunk_not_empty _ _ _ _ Hd S C).
Qed.

(** X3 (empty-chunk exit).  When no word character is white space the loop
    is never left through [if not chunk_text: break]: a chunk holds a word,
    which trimming keeps. *)
Theorem never_empty_chunk_exit (fuel : nat) (t : text) (k : Z)
    (st : loop_state) :
  words_not_spaces -> fst (split_loop fuel t k st) <> Empty_chunk.
Proof.
  intros Hd H. pose proof (split_loop_exits t k fuel st Hd) as X.
  now rewrite H in X.
Qed.

(** X4 (progress bar).  When no word character is white space and the loop
    ends by itself (cursor at the end, or no word left), the progress bar
    has been advanced by exactly the number of words of the text from the
    initial cursor on. *)
Theorem progress_reaches_total (fuel : nat) (t : text) (k : Z) (s0 : nat)
    (d0 : Z) :
  words_not_spaces ->
  let r := split_loop fuel t k (initial_state s0 d0) in
  fst r = Cursor_at_end \/ fst r = No_words ->
  pbar (snd r) = count_words (slice_from t s0).
Proof.
  intros Hd r Hr.
  pose proof (loop_conserved fuel t k s0 d0 Hd) as C.
  pose proof (loop_counted fuel t k s0 d0) as K.
  pose proof (split_loop_exits t k fuel (initial_state s0 d0) Hd) as X.
  fold r in C, K, X. unfold conserved in C.
  destruct K as (_ & K); [destruct Hr as [Hr|Hr]; rewrite Hr; discriminate|].
  destruct Hr as [Hr|Hr]; rewrite Hr in X.
  - unfold slice_from in C at 1. rewrite skipn_all2 in C by assumption.
    rewrite count_words_nil in C. lia.
  - lia.
Qed.

(** X5 (at least the target).  When no word character is white space, every
    file written holds at least as many words as the target (taken as one
    when it is below one), or all the words that were left at its start
    when those are fewer. *)
Theorem chunks_reach_target (fuel : nat) (t : text) (k : Z) (s0 : nat)
    (d0 : Z) :
  words_not_spaces ->
  Forall (fun c =>
            (Z.min (Z.max k 1)
               (Z.of_nat (count_words (slice_from t (chunk_start c))))
             <= Z.of_nat (actual_words c))%Z)
    (written (snd (split_loop fuel t k (initial_state s0 d0)))).
Proof.
  intros Hd. apply written_Forall; [|constructor].
  intros st e _ S _ _. simpl. rewrite (count_words_strip _ Hd).
  now apply segment_words.
Qed.

(** X6 (the files).  Every file written has a text that is not empty and
    has no white space at its ends, was accepted by the file system, and
    comes from a span that ends inside the text. *)
Theorem chunks_well_formed (fuel : nat) (t : text) (k : Z) (s0 : nat)
    (d0 : Z) :
  Forall (fun c => chunk_text c <> []
                   /\ strip (chunk_text c) = chunk_text c
                   /\ chunk_start c < chunk_end c <= length t
                   /\ write_ok c = true)
    (written (snd (split_loop fuel t k (initial_state s0 d0)))).
Proof.
  apply written_Forall; [|constructor].
  intros st e _ S C W. repeat split; try assumption.
  - simpl. apply strip_idempotent.
  - simpl. now apply segment_advances in S.
  - simpl. now apply segment_advances in S.
Qed.

(** ** The whole run *)

Lemma clean_text_nil : clean_text [] = [].
Proof. vm_compute. reflexivity. Qed.

Lemma find_in_nil (c : char) (sub : text) : find (c :: sub) [] 0 = None.
Proof. reflexivity. Qed.

(** The bound on passes that [split_book] allows is never used up. *)
Lemma split_book_ends (raw_text : text) (clean : bool)
    (words_per_minute minutes_per_day : Z) (start_text : text)
    (start_date : Z) (st : loop_state) :
  split_book raw_text clean words_per_minute minutes_per_day start_text
    start_date <> Aborted Out_of_fuel st.
Proof.
  unfold split_book.
  set (full_text := if clean then clean_text raw_text else raw_text).
  set (k := (words_per_minute * minutes_per_day)%Z).
  destruct (match start_text with
            | [] => Some 0
            | _ :: _ => find start_text full_text 0
            end) as [pos|]; [|discriminate].
  pose proof (split_loop_enough full_text k (S (length full_text))
                (initial_state pos start_date) ltac:(simpl; lia)) as E.
  destruct (split_loop (S (length full_text)) full_text k
              (initial_state pos start_date)) as [why st'].
  simpl in E.
  destruct why; try congruence;
    try (destruct (compute_statistics _ _ _); discriminate); discriminate.
Qed.

(** C9 (empty-document guard).  On the empty document, read from the
    beginning with a speed that is not zero, the run ends at the loop
    condition before the first pass, writes no chunk, and reports zero
    chunks and an average of zero words per chunk; no division fails. *)
Theorem empty_document_guard (clean : bool) (words_per_minute : Z)
    (minutes_per_day start_date : Z) :
  words_per_minute <> 0%Z ->
  exists st report,
    split_book [] clean words_per_minute minutes_per_day [] start_date
      = Finished Cursor_at_end st report
    /\ written st = [] /\ chunk_count st = 0
    /\ stats_days report = 0 /\ stats_avg_chunk report = 0.
Proof.
  intros Hw. unfold split_book.
  replace (if clean then clean_text [] else []) with (@nil char)
    by (destruct clean; [now rewrite clean_text_nil|reflexivity]).
  simpl. unfold compute_statistics.
  destruct (Z.eqb_spec words_per_minute 0) as [E|_]; [contradiction|].
  eexists _, _. split; [reflexivity|]. simpl. auto.
Qed.

(** With a starting phrase the run on the empty document ends before the
    loop: the phrase is not found. *)
Remark empty_document_phrase (clean : bool) (words_per_minute : Z)
    (minutes_per_day start_date : Z) (c : char) (phrase : text) :
  split_book [] clean words_per_minute minutes_per_day (c :: phrase)
    start_date = Phrase_not_found.
Proof.
  unfold split_book.
  replace (if clean then clean_text [] else []) with (@nil char)
    by (destruct clean; [now rewrite clean_text_nil|reflexivity]).
  reflexivity.
Qed.

(** With [words_per_minute = 0] (a value [config.ini] can hold) the
    division of [total_hours] fails, whatever the document. *)
Remark statistics_need_speed (total_words chunk_count : nat) :
  compute_statistics total_words 0 chunk_count = None.
Proof. reflexivity. Qed.

(** C1, as the program has it.  On the example text with a target of three
    words from offset 0 the raw cut is at offset 16, right after "gamma";
    the sentence break at 16 and the paragraph break at 32 are both in the
    window, the paragraph break is taken, the chunk ends at 34 and its
    trimmed text is "Alpha beta gamma. Delta epsilon.". *)
Theorem example_first_chunk :
  raw_cut example_text 0 3 = (3, 16)
  /\ find sentence_break example_text 16 = Some 16
  /\ find para_break example_text 16 = Some 32
  /\ segment example_text 0 3 = Some 34
  /\ strip (slice example_text 0 34)
     = of_string "Alpha beta gamma. Delta epsilon.".
Proof. vm_compute. repeat split; reflexivity. Qed.

(** ** Where a chunk ends *)

(** X23 (stretch).  The boundary search never moves the end of a chunk
    back, and never moves it more than 101 characters forward: a break
    starts within the 100 characters after the raw cut and is two
    characters long. *)
Theorem snap_stretch (t : text) (l : nat) :
  l <= snap t l <= l + 101.
Proof.
  split; [apply snap_bounds|]. unfold snap.
  destruct (found_before (find para_break t l) (l + 100)) as [p|] eqn:P.
  - apply found_before_Some in P. lia.
  - destruct (found_before (find sentence_break t l) (l + 100))
      as [d|] eqn:D; [|lia].
    apply found_before_Some in D. lia.
Qed.

(** X24 (no word is cut).  A chunk never ends inside a word: the character
    before its end and the character at its end are not both word
    characters. *)
Theorem no_word_cut (t : text) (s : nat) (k : Z) (e : nat) :
  segment t s k = Some e ->
  word_at t (e - 1) = false \/ word_at t e = false.
Proof.
  intros H. pose proof (segment_advances _ _ _ _ H) as Adv.
  destruct (segment_boundary _ _ _ _ H) as [B|[_ B]];
    unfold word_at, slice_from in B; rewrite nth_error_skipn in B.
  - right. unfold word_at. now replace (s + (e - s)) with e in B by lia.
  - left. unfold word_at.
    now replace (s + (e - s - 1)) with (e - 1) in B by lia.
Qed.

Lemma rstrip_stop_space (u : text) :
  rstrip (u ++ sentence_break) = u ++ [46%N].
Proof.
  unfold rstrip, sentence_break. rewrite rev_app_distr. simpl.
  now rewrite rev_involutive.
Qed.

Lemma occurs_at_slice (sub t : text) (s p : nat) :
  s <= p -> occurs_at sub t p ->
  slice t s (p + length sub) = slice t s p ++ sub.
Proof.
  intros Hs H. rewrite <- (slice_app t s p (p + length sub)) by lia.
  now rewrite H.
Qed.

(** X25 (a chunk that ends at a sentence).  When no paragraph break but a
    sentence break starts in the window after the raw cut, the text written
    for the chunk ends with the full stop of the first such break. *)
Theorem sentence_chunk_ends_with_stop (t : text) (s : nat) (k : Z)
    (w raw q : nat) :
  raw_cut t s k = (w, raw) -> 0 < w ->
  (forall j, raw <= j < raw + 100 -> ~ occurs_at para_break t j) ->
  raw <= q < raw + 100 -> occurs_at sentence_break t q ->
  exists e x, segment t s k = Some e
              /\ strip (slice t s e) = x ++ [46%N].
Proof.
  intros R Hw Hp Hq Ho.
  destruct (window_hit _ _ _ _ sentence_break_nonempty Hq Ho)
    as (d & F & Hd & Od & _).
  destruct (raw_cut_spec _ _ _ _ _ R) as [(-> & _)|(_ & Hl & _)]; [lia|].
  exists (d + 2). 
  assert (S : segment t s k = Some (d + 2)).
  { apply segment_Some. exists w, raw. repeat split; try assumption.
    unfold snap. rewrite (window_miss _ _ _ para_break_nonempty Hp).
    now rewrite F. }
  change (d + 2) with (d + length sentence_break).
  rewrite (occurs_at_slice _ _ s d ltac:(lia) Od).
  unfold strip. rewrite lstrip_app.
  destruct (lstrip (slice t s d)) as [|y r] eqn:L.
  - exists []. split; [exact S|]. reflexivity.
  - exists (y :: r). split; [exact S|]. apply rstrip_stop_space.
Qed.

(** ** The run, from the text to the report *)

Lemma loop_cursor (fuel : nat) (t : text) (k : Z) (st0 : loop_state) :
  current_pos st0 <= length t ->
  current_pos st0 <= current_pos (snd (split_loop fuel t k st0))
                  <= length t.
Proof.
  intros H0.
  apply (split_loop_rule t k
           (fun st => current_pos st0 <= current_pos st <= length t)
           (fun st => current_pos st0 <= current_pos st <= length t));
    [|auto|lia].
  intros st H. iteration_analysis t k st; rewrite E; try assumption;
    simpl; apply segment_advances in S; lia.
Qed.

(** X7 (cursor).  Whatever the run comes to, its cursor is an offset of the
    text: between 0 and the length of the text. *)
Theorem cursor_in_text (raw_text : text) (clean : bool)
    (words_per_minute minutes_per_day : Z) (start_text : text)
    (start_date : Z) :
  let full_text := if clean then clean_text raw_text else raw_text in
  match split_book raw_text clean words_per_minute minutes_per_day
          start_text start_date with
  | Phrase_not_found => True
  | Finished _ st _ | Division_by_zero _ st | Aborted _ st =>
      current_pos st <= length full_text
  end.
Proof.
  intros full_text. unfold split_book. fold full_text.
  set (k := (words_per_minute * minutes_per_day)%Z).
  destruct (match start_text with
            | [] => Some 0
            | _ :: _ => find start_text full_text 0
            end) as [pos|] eqn:P; [|exact I].
  assert (Hpos : pos <= length full_text).
  { destruct start_text; [injection P as <-; lia|].
    now destruct (find_Some _ _ _ _ P) as (_ & ? & _). }
  pose proof (loop_cursor (S (length full_text)) full_text k
                (initial_state pos start_date) Hpos) as C.
  destruct (split_loop (S (length full_text)) full_text k
              (initial_state pos start_date)) as [why st].
  simpl in C.
  destruct why; try (destruct (compute_statistics _ _ _)); lia.
Qed.

(** X8 (starting phrase).  The run ends with "phrase not found" exactly when
    a starting phrase is given and occurs nowhere in the text. *)
Theorem phrase_not_found_iff (raw_text : text) (clean : bool)
    (words_per_minute minutes_per_day : Z) (start_text : text)
    (start_date : Z) :
  let full_text := if clean then clean_text raw_text else raw_text in
  split_book raw_text clean words_per_minute minutes_per_day start_text
    start_date = Phrase_not_found
  <-> start_text <> [] /\ forall p, ~ occurs_at start_text full_text p.
Proof.
  intros full_text. unfold split_book. fold full_text.
  set (k := (words_per_minute * minutes_per_day)%Z).
  assert (Run : forall pos,
    (let '(why, st) := split_loop (S (length full_text)) full_text k
                         (initial_state pos start_date) in
     match why with
     | Write_error | Date_overflow | Out_of_fuel => Aborted why st
     | _ => match compute_statistics (count_words full_text)
                    words_per_minute (chunk_count st) with
            | Some report => Finished why st report
            | None => Division_by_zero why st
            end
     end) <> Phrase_not_found).
  { intros pos. destruct (split_loop _ _ _ _) as [why st].
    destruct why; try (destruct (compute_statistics _ _ _)); discriminate. }
  destruct start_text as [|c phrase].
  - split; [intros H; now apply Run in H|intros [H _]; congruence].
  - destruct (find (c :: phrase) full_text 0) as [pos|] eqn:F.
    + split; [intros H; now apply Run in H|].
      intros [_ H]. destruct (find_Some _ _ _ _ F) as (_ & _ & O & _).
      now apply H in O.
    + split; [|reflexivity]. intros _.
      assert (Hne : c :: phrase <> []) by (intros Hnil; discriminate Hnil).
      split; [exact Hne|].
      intros p. apply (find_None _ _ _ Hne F). lia.
Qed.

(** X9 (report).  When no word character is white space and a run from the
    beginning of the text reaches its report, the loop was left by itself,
    the days reported are the files written, and the words in the files,
    which are the words shown by the progress bar, are the words of the
    text. *)
Theorem finished_report (raw_text : text) (clean : bool)
    (words_per_minute minutes_per_day start_date : Z) (why : loop_exit)
    (st : loop_state) (report : statistics) :
  words_not_spaces ->
  split_book raw_text clean words_per_minute minutes_per_day [] start_date
    = Finished why st report ->
  let full_text := if clean then clean_text raw_text else raw_text in
  (why = Cursor_at_end \/ why = No_words)
  /\ stats_days report = length (written st)
  /\ words_written (written st) = count_words full_text
  /\ pbar st = count_words full_text.
Proof.
  intros Hd H full_text. unfold split_book in H. fold full_text in H.
  set (k := (words_per_minute * minutes_per_day)%Z) in H.
  pose proof (loop_conserved (S (length full_text)) full_text k 0
                start_date Hd) as C.
  pose proof (loop_counted (S (length full_text)) full_text k 0
                start_date) as K.
  pose proof (split_loop_exits full_text k (S (length full_text))
                (initial_state 0 start_date) Hd) as X.
  destruct (split_loop (S (length full_text)) full_text k
              (initial_state 0 start_date)) as [why' st'].
  cbn [fst snd] in C, K, X. unfold conserved, slice_from in C.
  cbn [skipn] in C. unfold compute_statistics in H.
  destruct (words_per_minute =? 0)%Z;
    [destruct why'; discriminate|].
  assert (E : why' = why /\ st' = st
              /\ stats_days report = chunk_count st').
  { destruct why'; try discriminate; injection H as <- <- <-; auto. }
  destruct E as (-> & -> & ->).
  assert (N : why = Cursor_at_end \/ why = No_words)
    by (destruct why; try discriminate; try contradiction; auto).
  destruct K as (K1 & K2); [destruct N as [-> | ->]; discriminate|].
  assert (R : count_words (skipn (current_pos st) full_text) = 0).
  { destruct N as [-> | ->]; [|exact X].
    rewrite skipn_all2 by assumption. apply count_words_nil. }
  repeat split; [assumption|lia|lia|lia].
Qed.

(** X10 (write failure).  A loop left for a write error stands at the start
    of the chunk that the file system refused: the segmenter gives a chunk
    at the final cursor, its trimmed text is not empty, and the file system
    refuses it. *)
Theorem write_error_at_refused_chunk (fuel : nat) (t : text) (k : Z)
    (st0 : loop_state) :
  let r := split_loop fuel t k st0 in
  fst r = Write_error ->
  exists e, segment t (current_pos (snd r)) k = Some e
            /\ chunk_text (next_chunk t (snd r) e) <> []
            /\ write_ok (next_chunk t (snd r) e) = false.
Proof.
  apply (split_loop_rule_exit t k (fun _ => True)
           (fun why st => why = Write_error ->
              exists e, segment t (current_pos st) k = Some e
                        /\ chunk_text (next_chunk t st e) <> []
                        /\ write_ok (next_chunk t st e) = false));
    [|discriminate|exact I].
  intros st _. iteration_analysis t k st; rewrite E; try discriminate; auto.
  intros _. exists e. auto.
Qed.

(** ** The extracted text *)

Lemma count_words_join (parts : list text) :
  count_words (join para_break parts) = list_sum (map count_words parts).
Proof.
  induction parts as [|p rest IH]; [reflexivity|].
  destruct rest as [|q rest].
  - simpl. lia.
  - change (join para_break (p :: q :: rest))
      with (p ++ 10%N :: 10%N :: join para_break (q :: rest)).
    rewrite count_words_app_nonword by reflexivity.
    rewrite count_words_nonword_cons by reflexivity.
    rewrite IH. reflexivity.
Qed.

Lemma list_sum_filter_nonempty (parts : list text) :
  list_sum (map count_words (filter nonempty parts))
  = list_sum (map count_words parts).
Proof.
  induction parts as [|p rest IH]; [reflexivity|]. simpl.
  destruct p; simpl; now rewrite IH.
Qed.

Lemma count_words_stripped_parts (raws : list text) :
  words_not_spaces ->
  list_sum (map count_words (stripped_parts raws))
  = list_sum (map count_words raws).
Proof.
  intros Hd. unfold stripped_parts. rewrite list_sum_filter_nonempty.
  induction raws as [|p rest IH]; [reflexivity|]. simpl.
  now rewrite (count_words_strip _ Hd), IH.
Qed.

(** X20 (words of an EPUB).  The words of the text extracted from an EPUB
    are the words of its paragraphs: joining them with blank lines neither
    adds nor merges words. *)
Theorem epub_words (texts : list text) :
  count_words (extract_text_from_epub texts)
  = list_sum (map count_words texts).
Proof.
  unfold extract_text_from_epub.
  now rewrite count_words_join, list_sum_filter_nonempty.
Qed.

(** X21 (words of an FB2).  When no word character is white space, the
    words of the text extracted from an FB2 are the words of its paragraphs
    and of its verse lines. *)
Theorem fb2_words (paragraphs verses : list text) :
  words_not_spaces ->
  count_words (extract_text_from_fb2 paragraphs verses)
  = list_sum (map count_words paragraphs)
    + list_sum (map count_words verses).
Proof.
  intros Hd. unfold extract_text_from_fb2.
  rewrite count_words_join, map_app, list_sum_app.
  now rewrite !(count_words_stripped_parts _ Hd).
Qed.

Lemma join_nil_iff (sep : text) (parts : list text) :
  Forall (fun p => p <> []) parts -> (join sep parts = [] <-> parts = []).
Proof.
  intros H. split; [|now intros ->].
  destruct parts as [|p rest]; [reflexivity|].
  inversion H as [|? ? Hp _]; subst. simpl.
  destruct rest; [congruence|]. destruct p; [congruence|discriminate].
Qed.

Lemma stripped_parts_nonempty (raws : list text) :
  Forall (fun p => p <> []) (stripped_parts raws).
Proof.
  apply Forall_forall. intros p Hp. unfold stripped_parts in Hp.
  apply filter_In in Hp. destruct Hp as (_ & Hp). now destruct p.
Qed.

Lemma stripped_parts_nil_iff (raws : list text) :
  stripped_parts raws = [] <-> Forall (fun p => strip p = []) raws.
Proof.
  unfold stripped_parts.
  induction raws as [|p rest IH]; simpl; [split; constructor|].
  destruct (strip p) eqn:E; simpl.
  - rewrite IH. split; [now constructor|now inversion 1].
  - split; [discriminate|]. inversion 1. congruence.
Qed.

(** X22 (an FB2 without text).  The text extracted from an FB2 is empty
    exactly when every paragraph and every verse line is blank. *)
Theorem fb2_empty_iff (paragraphs verses : list text) :
  extract_text_from_fb2 paragraphs verses = []
  <-> Forall (fun p => strip p = []) (paragraphs ++ verses).
Proof.
  unfold extract_text_from_fb2. rewrite join_nil_iff.
  - rewrite Forall_app, <- !stripped_parts_nil_iff.
    split; [apply app_eq_nil|now intros [-> ->]].
  - apply Forall_app. split; apply stripped_parts_nonempty.
Qed.

End Splitter.

(** ** The normalizer *)

Lemma replace_from_absent (old new t : text) (pos : nat) :
  find_at old t pos = None -> replace_from old new 0 t = t.
Proof.
  revert pos. induction t as [|c t IH]; intros pos; simpl; [reflexivity|].
  destruct (starts_with old (c :: t)); [discriminate|].
  intros H. f_equal. exact (IH _ H).
Qed.

Lemma replace_absent (old new t : text) :
  old <> [] -> contains old t = false -> replace old new t = t.
Proof.
  unfold contains, find, replace. simpl. intros Hne H.
  destruct old as [|a old]; [congruence|].
  destruct (find_at (a :: old) t 0) eqn:F; [discriminate|].
  exact (replace_from_absent _ _ _ _ F).
Qed.

Lemma ref_marker_nonempty (i : nat) : ref_marker i <> [].
Proof. discriminate. Qed.

Lemma fig_marker_nonempty (i : nat) : fig_marker i <> [].
Proof. discriminate. Qed.

Lemma tab_marker_nonempty (i : nat) : tab_marker i <> [].
Proof. discriminate. Qed.

Lemma clean_step_absent (t : text) (i : nat) :
  contains (ref_marker i) t = false ->
  contains (fig_marker i) t = false ->
  contains (tab_marker i) t = false ->
  clean_step t i = t.
Proof.
  intros H1 H2 H3. unfold clean_step.
  rewrite (replace_absent _ _ _ (ref_marker_nonempty i) H1).
  rewrite (replace_absent _ _ _ (fig_marker_nonempty i) H2).
  exact (replace_absent _ _ _ (tab_marker_nonempty i) H3).
Qed.

(** No effect when none of the markers is present. *)
Lemma clean_text_marker_free (t : text) :
  marker_free t = true -> clean_text t = t.
Proof.
  unfold marker_free, clean_text. generalize (seq 1 999) as l.
  induction l as [|i l IH]; simpl; [reflexivity|].
  rewrite !andb_true_iff, !negb_true_iff. intros [[[H1 H2] H3] H].
  rewrite (clean_step_absent _ _ H1 H2 H3). exact (IH H).
Qed.

(** C2, as the program has it.  A second run of the normalizer changes
    nothing when the first run left none of the markers in its result. *)
Theorem clean_text_idempotent_when_clean (t : text) :
  marker_free (clean_text t) = true ->
  clean_text (clean_text t) = clean_text t.
Proof. apply clean_text_marker_free. Qed.

(** ** What the normalizer never does *)

Lemma subsequence_refl (t : text) : subsequence t t.
Proof. induction t; constructor; assumption. Qed.

Lemma subsequence_trans (a b c : text) :
  subsequence a b -> subsequence b c -> subsequence a c.
Proof.
  intros Hab Hbc. revert a Hab.
  induction Hbc as [|x b c Hbc IH|x b c Hbc IH]; intros a Hab.
  - assumption.
  - inversion Hab; subst; constructor; auto.
  - constructor. auto.
Qed.

Lemma subsequence_length (a b : text) :
  subsequence a b -> length a <= length b.
Proof. induction 1; simpl; lia. Qed.

Lemma replace_from_deletes (old : text) (skip : nat) (t : text) :
  subsequence (replace_from old [] skip t) t.
Proof.
  revert skip. induction t as [|c t IH]; intros skip; simpl.
  - constructor.
  - destruct skip as [|skip]; [|constructor; apply IH].
    destruct (starts_with old (c :: t)); simpl; constructor; apply IH.
Qed.

Lemma replace_deletes (old t : text) :
  old <> [] -> subsequence (replace old [] t) t.
Proof.
  destruct old as [|a old]; [congruence|]. intros _.
  apply replace_from_deletes.
Qed.

Lemma clean_step_deletes (t : text) (i : nat) :
  subsequence (clean_step t i) t.
Proof.
  unfold clean_step.
  eapply subsequence_trans;
    [apply (replace_deletes _ _ (tab_marker_nonempty i))|].
  eapply subsequence_trans;
    [apply (replace_deletes _ _ (fig_marker_nonempty i))|].
  apply (replace_deletes _ _ (ref_marker_nonempty i)).
Qed.

(** X11 (the normalizer only deletes).  The cleaned text is the text with
    some characters deleted: nothing is added, changed or moved, and the
    text does not grow. *)
Theorem clean_text_only_deletes (t : text) :
  subsequence (clean_text t) t /\ length (clean_text t) <= length t.
Proof.
  assert (S : subsequence (clean_text t) t).
  { unfold clean_text. generalize (seq 1 999) as l. intros l. revert t.
    induction l as [|i l IH]; intros t; simpl; [apply subsequence_refl|].
    eapply subsequence_trans; [apply IH|apply clean_step_deletes]. }
  split; [exact S|now apply subsequence_length].
Qed.

(** X12 (nothing to clean).  A text in which none of the markers occurs is
    returned as it is. *)
Theorem clean_text_without_markers (t : text) :
  marker_free t = true -> clean_text t = t.
Proof. apply clean_text_marker_free. Qed.

(** ** [save_config]: updating the lines of [config.ini] *)

Lemma starts_with_app (key rest : text) : starts_with key (key ++ rest) = true.
Proof.
  induction key as [|c key IH]; simpl; [reflexivity|].
  now rewrite N.eqb_refl, IH.
Qed.

Lemma rstrip_keeps_prefix (key rest : text) :
  key <> [] -> forallb (fun c => negb (is_space c)) key = true ->
  exists r, rstrip (key ++ rest) = key ++ r.
Proof.
  induction key as [|x key IH]; [congruence|]. intros _. simpl.
  rewrite andb_true_iff, negb_true_iff. intros [X K].
  rewrite rstrip_cons. destruct key as [|y key].
  - simpl. destruct (rstrip rest) as [|z r].
    + rewrite X. now exists [].
    + now exists (z :: r).
  - destruct (IH ltac:(discriminate) K) as (r & E). rewrite E.
    simpl. now exists r.
Qed.

(** Trimming a line that begins with a key leaves the key in front. *)
Lemma strip_keeps_prefix (key rest : text) :
  key <> [] -> forallb (fun c => negb (is_space c)) key = true ->
  exists r, strip (key ++ rest) = key ++ r.
Proof.
  intros Hne K. unfold strip.
  replace (lstrip (key ++ rest)) with (key ++ rest).
  - now apply rstrip_keeps_prefix.
  - destruct key as [|x key]; [congruence|]. simpl in *.
    apply andb_true_iff in K. destruct K as [X _].
    apply negb_true_iff in X. now rewrite X.
Qed.

Lemma strip_minutes_line (m : Z) :
  exists r, strip (minutes_line m) = key_minutes ++ r.
Proof. now apply strip_keeps_prefix. Qed.

Lemma strip_wpm_line (w : Z) : exists r, strip (wpm_line w) = key_wpm ++ r.
Proof. now apply strip_keeps_prefix. Qed.

Lemma strip_language_line (l : text) :
  exists r, strip (language_line l) = key_language ++ r.
Proof. now apply strip_keeps_prefix. Qed.

(** The three tests on the three lines that the update writes. *)
Lemma tests_minutes_line (m : Z) :
  starts_with key_minutes (strip (minutes_line m)) = true.
Proof.
  destruct (strip_minutes_line m) as (r & ->). apply starts_with_app.
Qed.

Lemma tests_wpm_line (w : Z) :
  starts_with key_minutes (strip (wpm_line w)) = false
  /\ starts_with key_wpm (strip (wpm_line w)) = true.
Proof.
  destruct (strip_wpm_line w) as (r & ->).
  split; [reflexivity|apply starts_with_app].
Qed.

Lemma tests_language_line (l : text) :
  starts_with key_minutes (strip (language_line l)) = false
  /\ starts_with key_wpm (strip (language_line l)) = false
  /\ starts_with key_language (strip (language_line l)) = true.
Proof.
  destruct (strip_language_line l) as (r & ->).
  repeat split; reflexivity.
Qed.

Lemma tests_minutes_line_others (m : Z) :
  starts_with key_wpm (strip (minutes_line m)) = false
  /\ starts_with key_language (strip (minutes_line m)) = false.
Proof. destruct (strip_minutes_line m) as (r & ->). split; reflexivity. Qed.

Lemma tests_wpm_line_language (w : Z) :
  starts_with key_language (strip (wpm_line w)) = false.
Proof. destruct (strip_wpm_line w) as (r & ->). reflexivity. Qed.

Lemma update_line_twice (m1 w1 m2 w2 : Z) (l1 l2 line : text) :
  update_line m2 w2 l2 (update_line m1 w1 l1 line)
  = update_line m2 w2 l2 line.
Proof.
  unfold update_line at 2 3.
  destruct (starts_with key_minutes (strip line)) eqn:T1.
  { unfold update_line. now rewrite tests_minutes_line. }
  destruct (starts_with key_wpm (strip line)) eqn:T2.
  { unfold update_line. destruct (tests_wpm_line w1) as (-> & ->).
    reflexivity. }
  destruct (starts_with key_language (strip line)) eqn:T3.
  { unfold update_line.
    destruct (tests_language_line l1) as (-> & -> & ->). reflexivity. }
  unfold update_line. now rewrite T1, T2, T3.
Qed.

(** X17 (the last save wins).  Updating the lines with one set of values
    and then with another gives what updating with the other alone gives;
    in particular saving the same values twice changes nothing. *)
Theorem update_config_lines_twice (m1 w1 m2 w2 : Z) (l1 l2 : text)
    (lines : list text) :
  update_config_lines m2 w2 l2 (update_config_lines m1 w1 l1 lines)
  = update_config_lines m2 w2 l2 lines.
Proof.
  unfold update_config_lines. rewrite map_map. apply map_ext.
  intros line. apply update_line_twice.
Qed.

(** X18 (what is saved).  After the update every line of a setting holds
    the value saved: a line whose trimmed text starts with
    [minutes_per_day], [words_per_minute] or [language] is the line written
    for that key. *)
Theorem update_config_lines_saved (m w : Z) (l : text) (lines : list text) :
  Forall (fun line =>
            (starts_with key_minutes (strip line) = true ->
             line = minutes_line m)
            /\ (starts_with key_wpm (strip line) = true ->
                line = wpm_line w)
            /\ (starts_with key_language (strip line) = true ->
                line = language_line l))
    (update_config_lines m w l lines).
Proof.
  unfold update_config_lines. apply Forall_map, Forall_forall.
  intros line _. unfold update_line.
  destruct (starts_with key_minutes (strip line)) eqn:T1.
  { destruct (tests_minutes_line_others m) as (-> & ->).
    repeat split; auto; discriminate. }
  destruct (starts_with key_wpm (strip line)) eqn:T2.
  { destruct (tests_wpm_line w) as (-> & _).
    rewrite tests_wpm_line_language. repeat split; auto; discriminate. }
  destruct (starts_with key_language (strip line)) eqn:T3.
  { destruct (tests_language_line l) as (-> & -> & _).
    repeat split; auto; discriminate. }
  rewrite T1, T2, T3. repeat split; discriminate.
Qed.

(** X19 (comments are kept).  The update keeps the number of lines, and
    keeps as it is, at its place, every line that is blank or whose first
    character after the leading white space is not [m], [w] or [l]:
    comment lines and the section header among them. *)
Theorem update_config_lines_keeps (m w : Z) (l : text) (lines : list text)
    (i : nat) (line : text) :
  nth_error lines i = Some line ->
  match strip line with
  | [] => True
  | c :: _ => c <> 109%N /\ c <> 119%N /\ c <> 108%N
  end ->
  length (update_config_lines m w l lines) = length lines
  /\ nth_error (update_config_lines m w l lines) i = Some line.
Proof.
  intros Hi Hc. unfold update_config_lines. rewrite length_map.
  split; [reflexivity|]. rewrite nth_error_map, Hi. simpl. f_equal.
  unfold update_line. destruct (strip line) as [|c r]; [reflexivity|].
  destruct Hc as (Hm & Hw & Hl).
  assert (T : forall k key, k <> c -> starts_with (k :: key) (c :: r) = false).
  { intros k key Hk. simpl. now rewrite (proj2 (N.eqb_neq k c) Hk). }
  unfold key_minutes, key_wpm, key_language, of_string. simpl map.
  now rewrite !T by congruence.
Qed.

(** ** The claims at concrete inputs *)

(** C2 fails as stated: removing "[2]" from "[[2]1]" joins "[" and "1]"
    into the marker "[1]", which only a second run removes. *)
Lemma clean_text_not_idempotent :
  clean_text (clean_text (of_string "[[2]1]"))
  <> clean_text (of_string "[[2]1]").
Proof. vm_compute. discriminate. Qed.

Lemma clean_text_idempotent_when_clean_witness :
  clean_text (clean_text (of_string "a[12]b [7]c"))
  = clean_text (of_string "a[12]b [7]c").
Proof.
  apply (clean_text_idempotent_when_clean (of_string "a[12]b [7]c")).
  vm_compute. reflexivity.
Defined.

(** C1 fails as stated: the first chunk of the example is not
    "Alpha beta gamma.". *)
Lemma example_first_chunk_not_one_sentence :
  ~ (snd (raw_cut russian_letters example_text 0 3) = 16
     /\ option_map (fun e => strip (slice example_text 0 e))
          (segment russian_letters example_text 0 3)
        = Some (of_string "Alpha beta gamma.")).
Proof. vm_compute. intros [_ H]. discriminate H. Qed.

Lemma boundary_precedence_witness :
  exists p0,
    16 <= p0 <= 32 /\ occurs_at para_break example_text p0
    /\ (forall j, 16 <= j < p0 -> ~ occurs_at para_break example_text j)
    /\ segment russian_letters example_text 0 3 = Some (p0 + 2).
Proof.
  apply (boundary_precedence russian_letters example_text 0 3 3 16 32 16);
    [vm_compute; reflexivity|lia|lia|reflexivity|lia|reflexivity].
Defined.

Lemma hard_cut_fallback_witness :
  segment russian_letters (of_string "one two three four") 0 2 = Some 7.
Proof.
  apply (hard_cut_fallback russian_letters (of_string "one two three four")
           0 2 2 7);
    [vm_compute; reflexivity|lia
    |apply window_clear_spec; vm_compute; reflexivity
    |apply window_clear_spec; vm_compute; reflexivity].
Defined.

Lemma empty_document_guard_witness :
  exists st report,
    split_book russian_letters always_writes [] true 350 8 [] 739193
      = Finished Cursor_at_end st report
    /\ written st = [] /\ chunk_count st = 0
    /\ stats_days report = 0 /\ stats_avg_chunk report = 0.
Proof.
  apply (empty_document_guard russian_letters always_writes true 350 8 739193).
  discriminate.
Defined.

(** The run on the example text, three words a day: three chunks, and the
    loop is left at the final full stop, where no word remains. *)
Example example_run :
  let r := split_loop russian_letters always_writes 55 example_text 3
             (initial_state 0 739193) in
  fst r = No_words
  /\ current_pos (snd r) = 53
  /\ map (fun c => (chunk_start c, chunk_end c, actual_words c, chunk_date c))
       (written (snd r))
     = [(0, 34, 5, 739193%Z); (34, 48, 3, 739194%Z); (48, 53, 1, 739195%Z)].
Proof. vm_compute. repeat split; reflexivity. Qed.

(** ** The further properties at concrete inputs *)

(** The sample table has no white space among its word characters. *)
Lemma russian_words_not_spaces : words_not_spaces russian_letters.
Proof.
  intros c. unfold is_word, ascii_alnum, russian_letters, is_space.
  destruct (N.ltb_spec c 128) as [A|A];
    rewrite ?orb_true_iff, ?andb_true_iff, ?N.leb_le, ?N.eqb_eq;
    intros H; apply not_true_iff_false;
    rewrite ?orb_true_iff, ?andb_true_iff, ?N.leb_le, ?N.eqb_eq; lia.
Qed.

Lemma words_conserved_witness :
  let st := snd (split_loop russian_letters always_writes 55 example_text 3
                   (initial_state 0 739193)) in
  words_written (written st)
  + count_words russian_letters (slice_from example_text (current_pos st))
  = count_words russian_letters (slice_from example_text 0).
Proof.
  exact (words_conserved russian_letters always_writes 55 example_text 3 0
           739193 russian_words_not_spaces).
Defined.

Lemma counters_agree_witness :
  let r := split_loop russian_letters always_writes 55 example_text 3
             (initial_state 0 739193) in
  chunk_count (snd r) = length (written (snd r))
  /\ pbar (snd r) = words_written (written (snd r)).
Proof.
  apply (counters_agree russian_letters always_writes 55 example_text 3 0
           739193).
  vm_compute. discriminate.
Defined.

Lemma never_empty_chunk_exit_witness :
  fst (split_loop russian_letters always_writes 55 example_text 3
         (initial_state 0 739193)) <> Empty_chunk.
Proof.
  exact (never_empty_chunk_exit russian_letters always_writes 55
           example_text 3 (initial_state 0 739193) russian_words_not_spaces).
Defined.

Lemma progress_reaches_total_witness :
  pbar (snd (split_loop russian_letters always_writes 55 example_text 3
               (initial_state 0 739193)))
  = count_words russian_letters (slice_from example_text 0).
Proof.
  apply (progress_reaches_total russian_letters always_writes 55
           example_text 3 0 739193 russian_words_not_spaces).
  right. vm_compute. reflexivity.
Defined.

Lemma chunks_reach_target_witness :
  Forall (fun c =>
            (Z.min (Z.max 3 1)
               (Z.of_nat (count_words russian_letters
                            (slice_from example_text (chunk_start c))))
             <= Z.of_nat (actual_words c))%Z)
    (written (snd (split_loop russian_letters always_writes 55 example_text
                     3 (initial_state 0 739193)))).
Proof.
  exact (chunks_reach_target russian_letters always_writes 55 example_text
           3 0 739193 russian_words_not_spaces).
Defined.

Lemma finished_report_witness :
  exists why st report,
    split_book russian_letters always_writes example_text false 3 1 []
      739193 = Finished why st report
    /\ (why = Cursor_at_end \/ why = No_words)
    /\ stats_days report = length (written st)
    /\ words_written (written st) = count_words russian_letters example_text
    /\ pbar st = count_words russian_letters example_text.
Proof.
  destruct (split_book russian_letters always_writes example_text false 3 1
              [] 739193) as [|why st report|why st|why st] eqn:E;
    try (vm_compute in E; discriminate E).
  exists why, st, report. split; [reflexivity|].
  exact (finished_report russian_letters always_writes example_text false
           3 1 739193 why st report russian_words_not_spaces E).
Defined.

Lemma write_error_at_refused_chunk_witness :
  let r := split_loop russian_letters writes_first_only 55 example_text 3
             (initial_state 0 739193) in
  exists e, segment russian_letters example_text (current_pos (snd r)) 3
            = Some e
            /\ chunk_text (next_chunk russian_letters example_text (snd r) e)
               <> []
            /\ writes_first_only
                 (next_chunk russian_letters example_text (snd r) e) = false.
Proof.
  apply (write_error_at_refused_chunk russian_letters writes_first_only 55
           example_text 3 (initial_state 0 739193)).
  vm_compute. reflexivity.
Defined.

Lemma clean_text_without_markers_witness :
  clean_text (of_string "No markers [here], see Fig. 3.")
  = of_string "No markers [here], see Fig. 3.".
Proof.
  apply (clean_text_without_markers
           (of_string "No markers [here], see Fig. 3.")).
  vm_compute. reflexivity.
Defined.

Lemma words_add_up_witness :
  count_words russian_letters (of_string "one two" ++ 32%N :: of_string "three")
  = count_words russian_letters (of_string "one two")
    + count_words russian_letters (of_string "three").
Proof.
  apply (words_add_up russian_letters (of_string "one two")
           (of_string "three") 32%N).
  reflexivity.
Defined.

Lemma update_config_lines_keeps_witness :
  length (update_config_lines 8 350 (of_string "en")
            [of_string "# speed" ++ [10%N];
             of_string "words_per_minute = 200" ++ [10%N]])
  = 2
  /\ nth_error (update_config_lines 8 350 (of_string "en")
                  [of_string "# speed" ++ [10%N];
                   of_string "words_per_minute = 200" ++ [10%N]]) 0
     = Some (of_string "# speed" ++ [10%N]).
Proof.
  apply (update_config_lines_keeps 8 350 (of_string "en")
           [of_string "# speed" ++ [10%N];
            of_string "words_per_minute = 200" ++ [10%N]] 0
           (of_string "# speed" ++ [10%N]));
    [reflexivity|vm_compute; repeat split; discriminate].
Defined.

Lemma fb2_words_witness :
  count_words russian_letters
    (extract_text_from_fb2 [of_string " One two. "; of_string "  "]
       [of_string "three"])
  = list_sum (map (count_words russian_letters)
                [of_string " One two. "; of_string "  "])
    + list_sum (map (count_words russian_letters) [of_string "three"]).
Proof.
  exact (fb2_words russian_letters
           [of_string " One two. "; of_string "  "] [of_string "three"]
           russian_words_not_spaces).
Defined.

Lemma no_word_cut_witness :
  word_at russian_letters example_text (34 - 1) = false
  \/ word_at russian_letters example_text 34 = false.
Proof.
  apply (no_word_cut russian_letters example_text 0 3 34).
  vm_compute. reflexivity.
Defined.

Lemma sentence_chunk_ends_with_stop_witness :
  exists e x,
    segment russian_letters (of_string "one two. three four") 0 2 = Some e
    /\ strip (slice (of_string "one two. three four") 0 e) = x ++ [46%N].
Proof.
  apply (sentence_chunk_ends_with_stop russian_letters
           (of_string "one two. three four") 0 2 2 7 7);
    [vm_compute; reflexivity|lia
    |apply window_clear_spec; vm_compute; reflexivity
    |lia|reflexivity].
Defined.

(** The update of a configuration file on an example. *)
Example update_config_lines_ex :
  update_config_lines 10 400 (of_string "ru")
    [of_string "# Settings" ++ [10%N];
     of_string "[reading]" ++ [10%N];
     of_string "  minutes_per_day = 8" ++ [10%N];
     of_string "words_per_minute=350" ++ [10%N];
     of_string "language = en"]
  = [of_string "# Settings" ++ [10%N];
     of_string "[reading]" ++ [10%N];
     of_string "minutes_per_day = 10" ++ [10%N];
     of_string "words_per_minute = 400" ++ [10%N];
     of_string "language = ru" ++ [10%N]].
Proof. vm_compute. reflexivity. Qed.
